(** * Portfolio rebalancing optimizer: [solve_lp.py]

    A shallow embedding of [solve_portfolio_lp]
    (src/pricing/regime_downside/python/solve_lp.py) and the properties of
    its linear-program formulation, solver cascade and solution extraction.

    Conventions of the embedding.
    - Python and numpy floats are modelled by exact rationals [Q]; the value
      [float('inf')] of a failed solve is a separate constructor.
    - Python exceptions are the instances of [Exception]: what cvxpy, numpy
      and the arithmetic of the interpreter raise.  Interpreter signals
      (KeyboardInterrupt, SystemExit) are outside the model, so the bare
      [except:] of the cascade and the outer [except Exception] catch the
      same values.
    - The cvxpy expression objects that the function builds are an inductive
      type; cvxpy's shape checks happen when an expression is constructed,
      as in the library, and raise [ValueError].  Operand shapes must agree
      exactly or one operand must be a scalar; the promotion of one-element
      arrays that some cvxpy releases perform is not modelled.
    - The numerical solvers are a parameter: a function from the solver's
      name and the program to what the call does (raises, or returns a
      status with the values it assigned). *)

From Stdlib Require Import String.
From Stdlib Require Import QArith Qabs ZArith List Bool Lia Lqa.
From Stdlib Require Import Setoid Morphisms.
Import ListNotations.

Local Open Scope Q_scope.

(** ** Exceptions, the world, and the monad of the embedding *)

Inductive exn : Type :=
| ZeroDivisionError
| ValueError
| TypeError
| SolverError (msg : string).

Inductive solver : Type := CLARABEL | SCS | OSQP.

(** [float]: a finite value or [float('inf')]. *)
Inductive pyfloat : Type :=
| Fin (q : Q)
| Inf.

Record Solution : Type := mkSolution {
  asset_weights : list Q;
  cash_weight : Q;
  objective_value : pyfloat;
  lpm1_value : Q;
  cvar_value : Q;
  turnover : Q;
  beta_penalty : Q;
  solver_status : string
}.

(** What a call of the function leaves behind: the solvers it invoked, in
    order, and the content of [solution_file] if it was written. *)
Record world : Type := mkWorld {
  solver_log : list solver;
  solution_file : option Solution
}.

Definition initial_world : world := mkWorld [] None.

Inductive res (A : Type) : Type :=
| Ok (a : A)
| Raise (e : exn).
Arguments Ok {A} a.
Arguments Raise {A} e.

Definition M (A : Type) : Type := world -> res A * world.

Definition ret {A} (a : A) : M A := fun wd => (Ok a, wd).

Definition raise {A} (e : exn) : M A := fun wd => (Raise e, wd).

Definition bind {A B} (m : M A) (k : A -> M B) : M B :=
  fun wd =>
    match m wd with
    | (Ok a, wd') => k a wd'
    | (Raise e, wd') => (Raise e, wd')
    end.

(** [try: m except: h]; every exception of the model is caught. *)
Definition try_except {A} (m : M A) (h : exn -> M A) : M A :=
  fun wd =>
    match m wd with
    | (Ok a, wd') => (Ok a, wd')
    | (Raise e, wd') => h e wd'
    end.

Declare Scope py_scope.
Delimit Scope py_scope with py.
Notation "x <- m ;; k" := (bind m (fun x => k))
  (at level 61, m at next level, right associativity) : py_scope.
Notation "m ;;; k" := (bind m (fun _ => k))
  (at level 61, right associativity) : py_scope.
Local Open Scope py_scope.

(** Python's [/] on numbers. *)
Definition py_div (x y : Q) : M Q :=
  if Qeq_bool y 0 then raise ZeroDivisionError else ret (x / y).

(** ** The problem record (the JSON document of [problem_file]) *)

Record Problem : Type := mkProblem {
  n_assets : Z;
  n_scenarios : Z;
  asset_scenarios : list (list Q);
  benchmark_scenarios : list Q;
  cash_scenarios : list Q;
  prev_weights : list Q;
  prev_cash : Q;
  asset_betas : list Q;
  stress_weight : Q;
  lambda_lpm1 : Q;
  lambda_cvar : Q;
  lambda_beta : Q;
  kappa : Q;
  lpm_threshold : Q;
  cvar_alpha : Q;
  beta_target : Q
}.

(** ** Values, shapes and cvxpy expressions *)

Inductive val : Type :=
| Sc (q : Q)
| Vec (l : list Q).

Inductive shape : Type :=
| Scalar
| Vector (n : nat).

Definition val_shape (c : val) : shape :=
  match c with
  | Sc _ => Scalar
  | Vec l => Vector (length l)
  end.

Inductive var : Type := W | W_c | S_lpm | Eta | U | Zv | Vv.

(** A [cp.Variable]: its name, its shape and its [nonneg] attribute. *)
Record CpVariable : Type := mkVariable {
  vname : var;
  vshape : shape;
  vnonneg : bool
}.

Inductive expr : Type :=
| EVar (x : CpVariable)
| EConst (c : val)
| EMatVec (A : list (list Q)) (e : expr)
| EDot (c : list Q) (e : expr)
| EScale (c : val) (e : expr)
| EAdd (e1 e2 : expr)
| ESub (e1 e2 : expr)
| ENeg (e : expr)
| ESum (e : expr).

Inductive constraint : Type :=
| CEq (lhs rhs : expr)
| CGe (lhs rhs : expr).

(** Shape of the result of a broadcasting binary operation. *)
Definition broadcast (s1 s2 : shape) : option shape :=
  match s1, s2 with
  | Scalar, s => Some s
  | s, Scalar => Some s
  | Vector n, Vector m => if Nat.eqb n m then Some (Vector n) else None
  end.

Fixpoint expr_shape (e : expr) : shape :=
  match e with
  | EVar x => vshape x
  | EConst c => val_shape c
  | EMatVec A _ => Vector (length A)
  | EDot _ _ => Scalar
  | EScale c e1 =>
      match broadcast (val_shape c) (expr_shape e1) with
      | Some s => s
      | None => expr_shape e1
      end
  | EAdd e1 e2 | ESub e1 e2 =>
      match broadcast (expr_shape e1) (expr_shape e2) with
      | Some s => s
      | None => expr_shape e1
      end
  | ENeg e1 => expr_shape e1
  | ESum _ => Scalar
  end.

(** *** Constructors of expressions, with cvxpy's shape checks *)

(** [np.array] of a list of rows: the rows must have one length. *)
Definition rectangular (A : list (list Q)) : bool :=
  forallb (fun row => Nat.eqb (length row) (length (hd [] A))) A.

Definition np_array2 (A : list (list Q)) : M (list (list Q)) :=
  if rectangular A then ret A else raise ValueError.

(** [cp.Variable(n, nonneg=...)]: a dimension must be a positive integer. *)
Definition cp_Variable (x : var) (n : Z) (nonneg : bool) : M CpVariable :=
  if (n <=? 0)%Z then raise ValueError
  else ret (mkVariable x (Vector (Z.to_nat n)) nonneg).

(** [cp.Variable(nonneg=...)]: a scalar variable. *)
Definition cp_Variable0 (x : var) (nonneg : bool) : M CpVariable :=
  ret (mkVariable x Scalar nonneg).

(** [A @ e] for a two-dimensional constant [A]. *)
Definition cp_matmul (A : list (list Q)) (e : expr) : M expr :=
  match expr_shape e with
  | Vector n =>
      if Nat.eqb (length (hd [] A)) n then ret (EMatVec A e)
      else raise ValueError
  | Scalar => raise ValueError
  end.

(** [c @ e] for a one-dimensional constant [c]. *)
Definition cp_dot (c : list Q) (e : expr) : M expr :=
  match expr_shape e with
  | Vector n =>
      if Nat.eqb (length c) n then ret (EDot c e) else raise ValueError
  | Scalar => raise ValueError
  end.

Definition cp_mul (c : val) (e : expr) : M expr :=
  match broadcast (val_shape c) (expr_shape e) with
  | Some _ => ret (EScale c e)
  | None => raise ValueError
  end.

Definition cp_add (e1 e2 : expr) : M expr :=
  match broadcast (expr_shape e1) (expr_shape e2) with
  | Some _ => ret (EAdd e1 e2)
  | None => raise ValueError
  end.

Definition cp_sub (e1 e2 : expr) : M expr :=
  match broadcast (expr_shape e1) (expr_shape e2) with
  | Some _ => ret (ESub e1 e2)
  | None => raise ValueError
  end.

Definition cp_neg (e : expr) : M expr := ret (ENeg e).

Definition cp_sum (e : expr) : M expr := ret (ESum e).

Definition cp_eq (lhs rhs : expr) : M constraint :=
  match broadcast (expr_shape lhs) (expr_shape rhs) with
  | Some _ => ret (CEq lhs rhs)
  | None => raise ValueError
  end.

Definition cp_ge (lhs rhs : expr) : M constraint :=
  match broadcast (expr_shape lhs) (expr_shape rhs) with
  | Some _ => ret (CGe lhs rhs)
  | None => raise ValueError
  end.

(** ** The linear program ([cp.Problem]) and its formulation *)

Record LinearProgram : Type := mkLP {
  variables : list CpVariable;
  constraints : list constraint;
  objective : expr
}.

(** Lines 33-139 of [solve_portfolio_lp]: the conversion of the record to
    arrays, the decision variables, the constraints and the objective, in
    the order of the source. *)
Definition formulate (prob : Problem) : M LinearProgram :=
  let N := n_assets prob in
  let T := n_scenarios prob in
  R <- np_array2 (asset_scenarios prob) ;;
  let b := benchmark_scenarios prob in
  let r_c := cash_scenarios prob in
  let w_prev := prev_weights prob in
  let betas := asset_betas prob in
  let s := stress_weight prob in
  let tau := lpm_threshold prob in
  let alpha := cvar_alpha prob in
  (* decision variables *)
  w <- cp_Variable W N true ;;
  w_c <- cp_Variable0 W_c true ;;
  s_lpm <- cp_Variable S_lpm T true ;;
  eta <- cp_Variable0 Eta false ;;
  u <- cp_Variable U T true ;;
  z <- cp_Variable Zv N true ;;
  v <- cp_Variable0 Vv true ;;
  (* scenario expressions *)
  Rw <- cp_matmul R (EVar w) ;;
  rcwc <- cp_mul (Vec r_c) (EVar w_c) ;;
  p <- cp_add Rw rcwc ;;
  a <- cp_sub p (EConst (Vec b)) ;;
  (* (1) full investment *)
  sum_w <- cp_sum (EVar w) ;;
  budget <- cp_add sum_w (EVar w_c) ;;
  c1 <- cp_eq budget (EConst (Sc 1)) ;;
  (* (2) LPM1 slack *)
  tau_a <- cp_sub (EConst (Sc tau)) a ;;
  c2 <- cp_ge (EVar s_lpm) tau_a ;;
  (* (3) CVaR slack *)
  neg_a <- cp_neg a ;;
  neg_a_eta <- cp_sub neg_a (EVar eta) ;;
  c3 <- cp_ge (EVar u) neg_a_eta ;;
  (* (4) turnover slack *)
  delta_w <- cp_sub (EVar w) (EConst (Vec w_prev)) ;;
  c4 <- cp_ge (EVar z) delta_w ;;
  neg_delta_w <- cp_neg delta_w ;;
  c5 <- cp_ge (EVar z) neg_delta_w ;;
  (* (5) beta penalty slack *)
  portfolio_beta <- cp_dot betas (EVar w) ;;
  beta_dev <- cp_sub portfolio_beta (EConst (Sc (beta_target prob))) ;;
  c6 <- cp_ge (EVar v) beta_dev ;;
  neg_beta_dev <- cp_neg beta_dev ;;
  c7 <- cp_ge (EVar v) neg_beta_dev ;;
  (* objective *)
  k_lpm <- py_div (lambda_lpm1 prob) (inject_Z T) ;;
  sum_s <- cp_sum (EVar s_lpm) ;;
  lpm1_term <- cp_mul (Sc k_lpm) sum_s ;;
  k_u <- py_div 1 ((1 - alpha) * inject_Z T) ;;
  sum_u <- cp_sum (EVar u) ;;
  tail <- cp_mul (Sc k_u) sum_u ;;
  eta_tail <- cp_add (EVar eta) tail ;;
  cvar_term <- cp_mul (Sc (lambda_cvar prob)) eta_tail ;;
  sum_z <- cp_sum (EVar z) ;;
  turnover_term <- cp_mul (Sc (kappa prob)) sum_z ;;
  beta_penalty_term <- cp_mul (Sc (lambda_beta prob * s)) (EVar v) ;;
  o1 <- cp_add lpm1_term cvar_term ;;
  o2 <- cp_add o1 turnover_term ;;
  o3 <- cp_add o2 beta_penalty_term ;;
  ret (mkLP [w; w_c; s_lpm; eta; u; z; v]
            [c1; c2; c3; c4; c5; c6; c7]
            o3).

(** ** Values of expressions under an assignment of the variables *)

(** The [.value] fields of the seven decision variables after a solve. *)
Record assignment : Type := mkAssignment {
  w_val : list Q;
  w_c_val : Q;
  s_lpm_val : list Q;
  eta_val : Q;
  u_val : list Q;
  z_val : list Q;
  v_val : Q
}.

Definition value_of (sigma : assignment) (x : var) : val :=
  match x with
  | W => Vec (w_val sigma)
  | W_c => Sc (w_c_val sigma)
  | S_lpm => Vec (s_lpm_val sigma)
  | Eta => Sc (eta_val sigma)
  | U => Vec (u_val sigma)
  | Zv => Vec (z_val sigma)
  | Vv => Sc (v_val sigma)
  end.

(** [np.sum] *)
Definition Qsum (l : list Q) : Q := fold_right Qplus 0 l.

Fixpoint zip_with (f : Q -> Q -> Q) (l1 l2 : list Q) : list Q :=
  match l1, l2 with
  | x :: l1', y :: l2' => f x y :: zip_with f l1' l2'
  | _, _ => []
  end.

Definition dot (l1 l2 : list Q) : Q := Qsum (zip_with Qmult l1 l2).

(** Elementwise operation with a scalar broadcast over a vector. *)
Definition lift2 (f : Q -> Q -> Q) (v1 v2 : val) : val :=
  match v1, v2 with
  | Sc x, Sc y => Sc (f x y)
  | Sc x, Vec l => Vec (map (f x) l)
  | Vec l, Sc y => Vec (map (fun x => f x y) l)
  | Vec l1, Vec l2 => Vec (zip_with f l1 l2)
  end.

Definition as_vector (v : val) : list Q :=
  match v with
  | Sc x => [x]
  | Vec l => l
  end.

Definition val_map (f : Q -> Q) (v : val) : val :=
  match v with
  | Sc x => Sc (f x)
  | Vec l => Vec (map f l)
  end.

Fixpoint eval (sigma : assignment) (e : expr) : val :=
  match e with
  | EVar x => value_of sigma (vname x)
  | EConst c => c
  | EMatVec A e1 => Vec (map (fun row => dot row (as_vector (eval sigma e1))) A)
  | EDot c e1 => Sc (dot c (as_vector (eval sigma e1)))
  | EScale c e1 => lift2 Qmult c (eval sigma e1)
  | EAdd e1 e2 => lift2 Qplus (eval sigma e1) (eval sigma e2)
  | ESub e1 e2 => lift2 Qminus (eval sigma e1) (eval sigma e2)
  | ENeg e1 => val_map Qopp (eval sigma e1)
  | ESum e1 => Sc (Qsum (as_vector (eval sigma e1)))
  end.

(** A relation between two values, elementwise, a scalar being compared
    with every element of a vector. *)
Definition rel2 (P : Q -> Q -> Prop) (v1 v2 : val) : Prop :=
  match v1, v2 with
  | Sc x, Sc y => P x y
  | Sc x, Vec l => Forall (fun y => P x y) l
  | Vec l, Sc y => Forall (fun x => P x y) l
  | Vec l1, Vec l2 => Forall2 P l1 l2
  end.

Definition holds (sigma : assignment) (c : constraint) : Prop :=
  match c with
  | CEq lhs rhs => rel2 Qeq (eval sigma lhs) (eval sigma rhs)
  | CGe lhs rhs => rel2 (fun x y => y <= x) (eval sigma lhs) (eval sigma rhs)
  end.

(** The domain of a variable: [nonneg=True] bounds every entry below by 0. *)
Definition in_domain (sigma : assignment) (x : CpVariable) : Prop :=
  if vnonneg x
  then Forall (fun q => 0 <= q) (as_vector (value_of sigma (vname x)))
  else True.

(** The value assigned to a variable has the variable's shape. *)
Definition has_shape (sigma : assignment) (x : CpVariable) : Prop :=
  val_shape (value_of sigma (vname x)) = vshape x.

Definition well_shaped (lp : LinearProgram) (sigma : assignment) : Prop :=
  Forall (has_shape sigma) (variables lp).

Definition feasible (lp : LinearProgram) (sigma : assignment) : Prop :=
  Forall (in_domain sigma) (variables lp) /\
  Forall (holds sigma) (constraints lp).

Definition objective_at (lp : LinearProgram) (sigma : assignment) : Q :=
  Qsum (as_vector (eval sigma (objective lp))).

(** ** The solvers, the cascade and the extraction of the solution *)

(** What one call of [problem.solve(solver=...)] does: it raises, or it
    returns after setting [problem.status], the [.value] of the variables
    (None when no assignment is available) and [problem.value]. *)
Inductive solve_outcome : Type :=
| Raises (e : exn)
| Returns (st : string) (vals : option assignment) (objval : pyfloat).

Definition backend : Type := solver -> LinearProgram -> solve_outcome.

Record solved : Type := mkSolved {
  status : string;
  values : option assignment;
  value : pyfloat
}.

Definition problem_solve (be : backend) (lp : LinearProgram) (s : solver)
  : M solved :=
  fun wd =>
    let wd' := mkWorld (solver_log wd ++ [s]) (solution_file wd) in
    match be s lp with
    | Raises e => (Raise e, wd')
    | Returns st vals objval => (Ok (mkSolved st vals objval), wd')
    end.

(** Lines 143-149: CLARABEL, then SCS, then OSQP. *)
Definition cascade (be : backend) (lp : LinearProgram) : M solved :=
  try_except (problem_solve be lp CLARABEL)
    (fun _ =>
       try_except (problem_solve be lp SCS)
         (fun _ => problem_solve be lp OSQP)).

Definition is_optimal (st : string) : bool :=
  String.eqb st "optimal" || String.eqb st "optimal_inaccurate".

(** The dictionary of lines 154-163 and 189-198. *)
Definition fallback (prob : Problem) (st : string) : Solution :=
  mkSolution (prev_weights prob) (prev_cash prob) Inf 0 0 0 0 st.

(** Lines 151-184. *)
Definition extract (prob : Problem) (r : solved) : M Solution :=
  let T := n_scenarios prob in
  let alpha := cvar_alpha prob in
  let s := stress_weight prob in
  if negb (is_optimal (status r)) then ret (fallback prob (status r))
  else
    k_lpm <- py_div 1 (inject_Z T) ;;
    match values r with
    | None => raise TypeError
    | Some sigma =>
        let lpm1_val := k_lpm * Qsum (s_lpm_val sigma) in
        k_u <- py_div 1 ((1 - alpha) * inject_Z T) ;;
        let cvar_val := eta_val sigma + k_u * Qsum (u_val sigma) in
        let turnover_val := Qsum (z_val sigma) in
        let beta_pen_val := s * v_val sigma in
        ret (mkSolution (w_val sigma) (w_c_val sigma) (value r)
                        lpm1_val cvar_val turnover_val beta_pen_val
                        (status r))
    end.

(** [json.dump(solution, f)] on a [solution_file] that can be opened for
    writing.  That [open] can refuse the path, after the solvers have run,
    is modelled with the files, in [solve_portfolio_lp_files]. *)
Definition write_solution (sol : Solution) : M unit :=
  fun wd => (Ok tt, mkWorld (solver_log wd) (Some sol)).

(** The body of the outer [try] (lines 142-184). *)
Definition guarded (be : backend) (prob : Problem) (problem : LinearProgram)
  : M Solution :=
  r <- cascade be problem ;;
  extract prob r.

Definition solve_portfolio_lp (be : backend) (prob : Problem) : M Solution :=
  problem <- formulate prob ;;
  solution <- try_except
                (guarded be prob problem)
                (fun _ => ret (fallback prob "error")) ;;
  write_solution solution ;;;
  ret solution.

(** The result of one call from a fresh state. *)
Definition run (be : backend) (prob : Problem) : res Solution * world :=
  solve_portfolio_lp be prob initial_world.

(** ** Dimensions of a problem and the program in closed form *)

(** The dimension invariant of the problem record: [n_assets] and
    [n_scenarios] are positive and every array has the size they give. *)
Definition well_dimensioned (prob : Problem) : bool :=
  let N := Z.to_nat (n_assets prob) in
  let T := Z.to_nat (n_scenarios prob) in
  rectangular (asset_scenarios prob)
  && (0 <? n_assets prob)%Z
  && (0 <? n_scenarios prob)%Z
  && Nat.eqb (length (hd [] (asset_scenarios prob))) N
  && Nat.eqb (length (asset_scenarios prob)) T
  && Nat.eqb (length (cash_scenarios prob)) T
  && Nat.eqb (length (benchmark_scenarios prob)) T
  && Nat.eqb (length (prev_weights prob)) N
  && Nat.eqb (length (asset_betas prob)) N.

Section Program.
Variable prob : Problem.

Let N := Z.to_nat (n_assets prob).
Let T := Z.to_nat (n_scenarios prob).

Definition var_w := mkVariable W (Vector N) true.
Definition var_w_c := mkVariable W_c Scalar true.
Definition var_s_lpm := mkVariable S_lpm (Vector T) true.
Definition var_eta := mkVariable Eta Scalar false.
Definition var_u := mkVariable U (Vector T) true.
Definition var_z := mkVariable Zv (Vector N) true.
Definition var_v := mkVariable Vv Scalar true.

(** [a = R @ w + r_c * w_c - b] *)
Definition active_return : expr :=
  ESub (EAdd (EMatVec (asset_scenarios prob) (EVar var_w))
             (EScale (Vec (cash_scenarios prob)) (EVar var_w_c)))
       (EConst (Vec (benchmark_scenarios prob))).

Definition delta_w : expr :=
  ESub (EVar var_w) (EConst (Vec (prev_weights prob))).

Definition beta_dev : expr :=
  ESub (EDot (asset_betas prob) (EVar var_w))
       (EConst (Sc (beta_target prob))).

Definition program_constraints : list constraint :=
  [ CEq (EAdd (ESum (EVar var_w)) (EVar var_w_c)) (EConst (Sc 1));
    CGe (EVar var_s_lpm) (ESub (EConst (Sc (lpm_threshold prob))) active_return);
    CGe (EVar var_u) (ESub (ENeg active_return) (EVar var_eta));
    CGe (EVar var_z) delta_w;
    CGe (EVar var_z) (ENeg delta_w);
    CGe (EVar var_v) beta_dev;
    CGe (EVar var_v) (ENeg beta_dev) ].

Definition program_objective : expr :=
  EAdd
    (EAdd
       (EAdd
          (EScale (Sc (lambda_lpm1 prob / inject_Z (n_scenarios prob)))
                  (ESum (EVar var_s_lpm)))
          (EScale (Sc (lambda_cvar prob))
                  (EAdd (EVar var_eta)
                        (EScale (Sc (1 / ((1 - cvar_alpha prob)
                                          * inject_Z (n_scenarios prob))))
                                (ESum (EVar var_u))))))
       (EScale (Sc (kappa prob)) (ESum (EVar var_z))))
    (EScale (Sc (lambda_beta prob * stress_weight prob)) (EVar var_v)).

Definition program_of : LinearProgram :=
  mkLP [var_w; var_w_c; var_s_lpm; var_eta; var_u; var_z; var_v]
       program_constraints
       program_objective.
End Program.

(** ** The specification's reading of the program *)

Section Specification.
Variable prob : Problem.
Variable sigma : assignment.

Let N := Z.to_nat (n_assets prob).
Let T := Z.to_nat (n_scenarios prob).

(** [a[t]], for [a = R @ w + r_c * w_c - b]. *)
Definition active_at (t : nat) : Q :=
  dot (nth t (asset_scenarios prob) []) (w_val sigma)
  + nth t (cash_scenarios prob) 0 * w_c_val sigma
  - nth t (benchmark_scenarios prob) 0.

(** The objective as the specification writes it. *)
Definition spec_objective : Q :=
  lambda_lpm1 prob * (1 / inject_Z (n_scenarios prob))
    * Qsum (s_lpm_val sigma)
  + lambda_cvar prob
    * (eta_val sigma
       + (1 / ((1 - cvar_alpha prob) * inject_Z (n_scenarios prob)))
         * Qsum (u_val sigma))
  + kappa prob * Qsum (z_val sigma)
  + lambda_beta prob * stress_weight prob * v_val sigma.

(** The constraint set as the specification writes it, the domains of
    the variables included; [eta] is free. *)
Definition spec_constraints : Prop :=
  Qsum (w_val sigma) + w_c_val sigma == 1
  /\ (forall t, (t < T)%nat ->
        lpm_threshold prob - active_at t <= nth t (s_lpm_val sigma) 0
        /\ - active_at t - eta_val sigma <= nth t (u_val sigma) 0)
  /\ (forall i, (i < N)%nat ->
        nth i (w_val sigma) 0 - nth i (prev_weights prob) 0
          <= nth i (z_val sigma) 0
        /\ - (nth i (w_val sigma) 0 - nth i (prev_weights prob) 0)
          <= nth i (z_val sigma) 0)
  /\ dot (asset_betas prob) (w_val sigma) - beta_target prob <= v_val sigma
  /\ - (dot (asset_betas prob) (w_val sigma) - beta_target prob)
       <= v_val sigma
  /\ (forall i, (i < N)%nat -> 0 <= nth i (w_val sigma) 0)
  /\ 0 <= w_c_val sigma
  /\ (forall t, (t < T)%nat -> 0 <= nth t (s_lpm_val sigma) 0)
  /\ (forall t, (t < T)%nat -> 0 <= nth t (u_val sigma) 0)
  /\ (forall i, (i < N)%nat -> 0 <= nth i (z_val sigma) 0)
  /\ 0 <= v_val sigma.
End Specification.

(** [sigma] is feasible and no feasible assignment has an objective smaller
    by more than [eps]. *)
Definition optimal_within (eps : Q) (lp : LinearProgram) (sigma : assignment)
  : Prop :=
  well_shaped lp sigma /\ feasible lp sigma /\
  forall sigma', well_shaped lp sigma' -> feasible lp sigma' ->
                 objective_at lp sigma <= objective_at lp sigma' + eps.

(** [sum(|asset_weights[i] - prev_weights[i]|)] *)
Definition direct_turnover (prob : Problem) (weights : list Q) : Q :=
  Qsum (zip_with (fun x y => Qabs (x - y)) weights (prev_weights prob)).

(** [sum(asset_weights) + cash_weight == 1] within [eps]. *)
Definition budget_within (eps : Q) (weights : list Q) (cash : Q) : Prop :=
  Qabs (Qsum weights + cash - 1) <= eps.

(** The tolerance of a solver on a program: when a call returns a status of
    the optimal class with values, every equality constraint of the program
    holds within [eps]. *)
Definition equalities_within (eps : Q) (be : backend) (lp : LinearProgram)
  : Prop :=
  forall s st sigma objval lhs rhs,
    be s lp = Returns st (Some sigma) objval ->
    is_optimal st = true ->
    In (CEq lhs rhs) (constraints lp) ->
    rel2 (fun x y => Qabs (x - y) <= eps) (eval sigma lhs) (eval sigma rhs).


(** ** Concrete problems and solvers *)

(** The scenario of the specification: two assets, three scenarios. *)
Definition example_problem : Problem :=
  mkProblem 2 3
    [[1#100; -2#100]; [3#100; 1#100]; [-1#100; 4#100]]
    [0; 2#100; 1#100]
    [0; 0; 0]
    [1#2; 1#2] 0
    [1; 1#2] 1
    1 (1#2) 1 (1#10) 0 (8#10) (6#10).

Definition with_cvar_alpha (prob : Problem) (alpha : Q) : Problem :=
  mkProblem (n_assets prob) (n_scenarios prob) (asset_scenarios prob)
    (benchmark_scenarios prob) (cash_scenarios prob) (prev_weights prob)
    (prev_cash prob) (asset_betas prob) (stress_weight prob)
    (lambda_lpm1 prob) (lambda_cvar prob) (lambda_beta prob) (kappa prob)
    (lpm_threshold prob) alpha (beta_target prob).

Definition with_prev_weights (prob : Problem) (ws : list Q) : Problem :=
  mkProblem (n_assets prob) (n_scenarios prob) (asset_scenarios prob)
    (benchmark_scenarios prob) (cash_scenarios prob) ws
    (prev_cash prob) (asset_betas prob) (stress_weight prob)
    (lambda_lpm1 prob) (lambda_cvar prob) (lambda_beta prob) (kappa prob)
    (lpm_threshold prob) (cvar_alpha prob) (beta_target prob).

(** One asset, one scenario, every return zero; the weights of the four
    objective terms are the parameters. *)
Definition tiny_problem (l_lpm1 l_cvar l_beta k : Q) : Problem :=
  mkProblem 1 1 [[0]] [0] [0] [1] 0 [1] 1
    l_lpm1 l_cvar l_beta k (-1) (1#2) 1.

(** The previous portfolio kept, every slack at its least value. *)
Definition keep_assignment : assignment :=
  mkAssignment [1] 0 [0] 0 [0] [0] 0.

(** The same portfolio with a turnover slack that is not tight. *)
Definition slack_assignment : assignment :=
  mkAssignment [1] 0 [0] 0 [0] [1] 0.

Definition example_assignment : assignment :=
  mkAssignment [1#2; 1#2] 0 [1; 1; 1] 0 [1; 1; 1] [0; 0] (3#20).

(** A solver table: what each of the three solvers does on any program. *)
Definition backend_of (c s o : solve_outcome) : backend :=
  fun name _ =>
    match name with
    | CLARABEL => c
    | SCS => s
    | OSQP => o
    end.

Definition not_installed : solve_outcome :=
  Raises (SolverError "The solver is not installed.").


(** The dictionary of lines 175-184 once the two divisions have succeeded. *)
Definition extracted (prob : Problem) (r : solved) (sigma : assignment)
  : Solution :=
  mkSolution (w_val sigma) (w_c_val sigma) (value r)
    ((1 / inject_Z (n_scenarios prob)) * Qsum (s_lpm_val sigma))
    (eta_val sigma
     + (1 / ((1 - cvar_alpha prob) * inject_Z (n_scenarios prob)))
       * Qsum (u_val sigma))
    (Qsum (z_val sigma))
    (stress_weight prob * v_val sigma)
    (status r).

(** The value of [a = R @ w + r_c * w_c - b] under an assignment. *)
Definition active_vector (prob : Problem) (sigma : assignment) : list Q :=
  zip_with Qminus
    (zip_with Qplus
       (map (fun row => dot row (w_val sigma)) (asset_scenarios prob))
       (map (fun x => x * w_c_val sigma) (cash_scenarios prob)))
    (benchmark_scenarios prob).

(** An assignment with its turnover slacks replaced by the absolute changes
    of the weights. *)
Definition tighten (prob : Problem) (sigma : assignment) : assignment :=
  mkAssignment (w_val sigma) (w_c_val sigma) (s_lpm_val sigma)
    (eta_val sigma) (u_val sigma)
    (zip_with (fun x y => Qabs (x - y)) (w_val sigma) (prev_weights prob))
    (v_val sigma).

(** What the world is after the solution was written. *)
Definition written (wd : world) (sol : Solution) : world :=
  mkWorld (solver_log wd) (Some sol).

(** ** Further definitions: portfolios, true risk measures, tight slacks *)

Definition with_prev_cash (prob : Problem) (cash : Q) : Problem :=
  mkProblem (n_assets prob) (n_scenarios prob) (asset_scenarios prob)
    (benchmark_scenarios prob) (cash_scenarios prob) (prev_weights prob)
    cash (asset_betas prob) (stress_weight prob)
    (lambda_lpm1 prob) (lambda_cvar prob) (lambda_beta prob) (kappa prob)
    (lpm_threshold prob) (cvar_alpha prob) (beta_target prob).

(** [max(0, x)] *)
Definition hinge (x : Q) : Q := if Qle_bool 0 x then x else 0.

(** The active returns of a portfolio [(w, w_c)]. *)
Definition active_returns (prob : Problem) (w : list Q) (w_c : Q) : list Q :=
  active_vector prob (mkAssignment w w_c [] 0 [] [] 0).

(** The first lower partial moment below the threshold,
    [mean(max(0, tau - a[t]))]. *)
Definition true_lpm1 (prob : Problem) (w : list Q) (w_c : Q) : Q :=
  (1 / inject_Z (n_scenarios prob))
  * Qsum (map (fun a => hinge (lpm_threshold prob - a))
              (active_returns prob w w_c)).

(** [|betas @ w - beta_target|] *)
Definition beta_deviation (prob : Problem) (w : list Q) : Q :=
  Qabs (dot (asset_betas prob) w - beta_target prob).

(** [mean(a)], the mean active return of a portfolio. *)
Definition mean_active (prob : Problem) (w : list Q) (w_c : Q) : Q :=
  (1 / inject_Z (n_scenarios prob)) * Qsum (active_returns prob w w_c).

(** The assignment that gives a portfolio [(w, w_c)] and a threshold [eta]
    the least slacks the constraints allow. *)
Definition tight_slacks (prob : Problem) (w : list Q) (w_c eta : Q)
  : assignment :=
  mkAssignment w w_c
    (map (fun a => hinge (lpm_threshold prob - a)) (active_returns prob w w_c))
    eta
    (map (fun a => hinge (- a - eta)) (active_returns prob w w_c))
    (zip_with (fun x y => Qabs (x - y)) w (prev_weights prob))
    (beta_deviation prob w).

(** Everything in cash. *)
Definition all_cash (prob : Problem) : assignment :=
  tight_slacks prob (repeat 0 (Z.to_nat (n_assets prob))) 1 0.

(** An assignment with its shortfall slacks replaced by the shortfalls. *)
Definition tighten_lpm (prob : Problem) (sigma : assignment) : assignment :=
  mkAssignment (w_val sigma) (w_c_val sigma)
    (map (fun a => hinge (lpm_threshold prob - a))
         (active_returns prob (w_val sigma) (w_c_val sigma)))
    (eta_val sigma) (u_val sigma) (z_val sigma) (v_val sigma).

(** An assignment with its beta slack replaced by the beta deviation. *)
Definition tighten_beta (prob : Problem) (sigma : assignment) : assignment :=
  mkAssignment (w_val sigma) (w_c_val sigma) (s_lpm_val sigma)
    (eta_val sigma) (u_val sigma) (z_val sigma)
    (beta_deviation prob (w_val sigma)).

(** A bound on the active returns that holds for every portfolio with
    weights in [0, 1]: [sum_i |R[t][i]| + |r_c[t]| - b[t]]. *)
Definition return_bound (prob : Problem) : list Q :=
  zip_with Qminus
    (zip_with Qplus
       (map (fun row => Qsum (map Qabs row)) (asset_scenarios prob))
       (map Qabs (cash_scenarios prob)))
    (benchmark_scenarios prob).

(** A value no feasible assignment takes the objective below, when the
    weights of the objective terms are nonnegative. *)
Definition objective_floor (prob : Problem) : Q :=
  - (lambda_cvar prob
     * ((1 / inject_Z (n_scenarios prob)) * Qsum (return_bound prob))).

(** An assignment with every turnover slack raised by [m]. *)
Definition inflate_turnover (m : Q) (sigma : assignment) : assignment :=
  mkAssignment (w_val sigma) (w_c_val sigma) (s_lpm_val sigma)
    (eta_val sigma) (u_val sigma)
    (map (fun x => x + m) (z_val sigma))
    (v_val sigma).

(** ** The script: the problem file and [__main__] *)

(** The dictionary [json.load] returns, by the keys the function reads; a
    key the file lacks is [None].  The values have the JSON types the
    function expects; printing is not modelled. *)
Record document : Type := mkDocument {
  doc_n_assets : option Z;
  doc_n_scenarios : option Z;
  doc_asset_scenarios : option (list (list Q));
  doc_benchmark_scenarios : option (list Q);
  doc_cash_scenarios : option (list Q);
  doc_prev_weights : option (list Q);
  doc_prev_cash : option Q;
  doc_asset_betas : option (list Q);
  doc_stress_weight : option Q;
  doc_lambda_lpm1 : option Q;
  doc_lambda_cvar : option Q;
  doc_lambda_beta : option Q;
  doc_kappa : option Q;
  doc_lpm_threshold : option Q;
  doc_cvar_alpha : option Q;
  doc_beta_target : option Q
}.

(** An exception that ends the script. *)
Inductive uncaught : Type :=
| FileNotFoundError
| KeyError (key : string)
| Uncaught (e : exn)
| OSError.

(** [prob[key]] *)
Definition subscript {A : Type} (key : string) (field : option A)
  : uncaught + A :=
  match field with
  | Some a => inr a
  | None => inl (KeyError key)
  end.

Definition and_then {A B : Type} (m : uncaught + A) (k : A -> uncaught + B)
  : uncaught + B :=
  match m with
  | inl e => inl e
  | inr a => k a
  end.

Notation "x <-? m ;; k" := (and_then m (fun x => k))
  (at level 61, m at next level, right associativity) : py_scope.

(** Lines 33-52: the keys are read in this order; [np.array] refuses rows
    of different lengths. *)
Definition load_problem (d : document) : uncaught + Problem :=
  N <-? subscript "n_assets" (doc_n_assets d) ;;
  T <-? subscript "n_scenarios" (doc_n_scenarios d) ;;
  rows <-? subscript "asset_scenarios" (doc_asset_scenarios d) ;;
  R <-? (if rectangular rows then inr rows else inl (Uncaught ValueError)) ;;
  b <-? subscript "benchmark_scenarios" (doc_benchmark_scenarios d) ;;
  r_c <-? subscript "cash_scenarios" (doc_cash_scenarios d) ;;
  w_prev <-? subscript "prev_weights" (doc_prev_weights d) ;;
  w_c_prev <-? subscript "prev_cash" (doc_prev_cash d) ;;
  betas <-? subscript "asset_betas" (doc_asset_betas d) ;;
  s <-? subscript "stress_weight" (doc_stress_weight d) ;;
  l_lpm1 <-? subscript "lambda_lpm1" (doc_lambda_lpm1 d) ;;
  l_cvar <-? subscript "lambda_cvar" (doc_lambda_cvar d) ;;
  l_beta <-? subscript "lambda_beta" (doc_lambda_beta d) ;;
  k <-? subscript "kappa" (doc_kappa d) ;;
  tau <-? subscript "lpm_threshold" (doc_lpm_threshold d) ;;
  alpha <-? subscript "cvar_alpha" (doc_cvar_alpha d) ;;
  target <-? subscript "beta_target" (doc_beta_target d) ;;
  inr (mkProblem N T R b r_c w_prev w_c_prev betas s
                 l_lpm1 l_cvar l_beta k tau alpha target).

(** The keys in the order the function reads them, each with whether the
    document has it. *)
Definition keys_read (d : document) : list (string * bool) :=
  let has {A} (f : option A) := match f with Some _ => true | None => false end in
  [ ("n_assets"%string, has (doc_n_assets d));
    ("n_scenarios"%string, has (doc_n_scenarios d));
    ("asset_scenarios"%string, has (doc_asset_scenarios d));
    ("benchmark_scenarios"%string, has (doc_benchmark_scenarios d));
    ("cash_scenarios"%string, has (doc_cash_scenarios d));
    ("prev_weights"%string, has (doc_prev_weights d));
    ("prev_cash"%string, has (doc_prev_cash d));
    ("asset_betas"%string, has (doc_asset_betas d));
    ("stress_weight"%string, has (doc_stress_weight d));
    ("lambda_lpm1"%string, has (doc_lambda_lpm1 d));
    ("lambda_cvar"%string, has (doc_lambda_cvar d));
    ("lambda_beta"%string, has (doc_lambda_beta d));
    ("kappa"%string, has (doc_kappa d));
    ("lpm_threshold"%string, has (doc_lpm_threshold d));
    ("cvar_alpha"%string, has (doc_cvar_alpha d));
    ("beta_target"%string, has (doc_beta_target d)) ].

Definition first_missing (d : document) : option string :=
  option_map fst (find (fun kv => negb (snd kv)) (keys_read d)).

(** The rows of [asset_scenarios], when the document has them, have one
    length. *)
Definition rows_rectangular (d : document) : bool :=
  match doc_asset_scenarios d with
  | Some rows => rectangular rows
  | None => true
  end.

(** The files that can be opened and parsed, by path. *)
Definition filesystem : Type := string -> option document.

(** What a call of the function on files leaves behind: the exception
    that ended it, if any, the solvers invoked and the files written. *)
Record effects : Type := mkEffects {
  raised : option uncaught;
  solvers_invoked : list solver;
  files_written : list (string * Solution)
}.

(** [solve_portfolio_lp(problem_file, solution_file)], files included:
    [open(problem_file)] and the reading of the keys, the function on the
    problem, and [open(solution_file, 'w')], which stands after the [try]
    and raises OSError on a path that cannot be written. *)
Definition solve_portfolio_lp_files (be : backend) (fs : filesystem)
    (writable : string -> bool) (problem_path solution_path : string)
  : effects :=
  match fs problem_path with
  | None => mkEffects (Some FileNotFoundError) [] []
  | Some d =>
      match load_problem d with
      | inl e => mkEffects (Some e) [] []
      | inr prob =>
          match run be prob with
          | (Raise e, wd) => mkEffects (Some (Uncaught e)) (solver_log wd) []
          | (Ok sol, wd) =>
              if writable solution_path
              then mkEffects None (solver_log wd) [(solution_path, sol)]
              else mkEffects (Some OSError) (solver_log wd) []
          end
      end
  end.


(** * Properties *)

(** ** Formulation *)

Lemma inject_Z_pos_nonzero (t : Z) :
  (0 < t)%Z -> Qeq_bool (inject_Z t) 0 = false.
Proof.
  intros Ht. destruct (Qeq_bool (inject_Z t) 0) eqn:E; [|reflexivity].
  apply Qeq_bool_eq in E. unfold Qeq in E. cbn in E. lia.
Qed.

Lemma well_dimensioned_false (prob : Problem) :
  well_dimensioned prob = false ->
  rectangular (asset_scenarios prob) = false \/
  (n_assets prob <= 0)%Z \/ (n_scenarios prob <= 0)%Z \/
  length (hd [] (asset_scenarios prob)) <> Z.to_nat (n_assets prob) \/
  length (asset_scenarios prob) <> Z.to_nat (n_scenarios prob) \/
  length (cash_scenarios prob) <> Z.to_nat (n_scenarios prob) \/
  length (benchmark_scenarios prob) <> Z.to_nat (n_scenarios prob) \/
  length (prev_weights prob) <> Z.to_nat (n_assets prob) \/
  length (asset_betas prob) <> Z.to_nat (n_assets prob).
Proof.
  unfold well_dimensioned. intros H.
  repeat (apply andb_false_iff in H; destruct H as [H|H]);
    try (apply Nat.eqb_neq in H); try (apply Z.ltb_ge in H); tauto.
Qed.

Lemma well_dimensioned_true (prob : Problem) :
  well_dimensioned prob = true ->
  rectangular (asset_scenarios prob) = true /\
  (0 < n_assets prob)%Z /\ (0 < n_scenarios prob)%Z /\
  length (hd [] (asset_scenarios prob)) = Z.to_nat (n_assets prob) /\
  length (asset_scenarios prob) = Z.to_nat (n_scenarios prob) /\
  length (cash_scenarios prob) = Z.to_nat (n_scenarios prob) /\
  length (benchmark_scenarios prob) = Z.to_nat (n_scenarios prob) /\
  length (prev_weights prob) = Z.to_nat (n_assets prob) /\
  length (asset_betas prob) = Z.to_nat (n_assets prob).
Proof.
  unfold well_dimensioned. intros H.
  repeat (apply andb_true_iff in H; destruct H as [H ?]).
  repeat match goal with
         | H : Nat.eqb _ _ = true |- _ => apply Nat.eqb_eq in H
         | H : Z.ltb _ _ = true |- _ => apply Z.ltb_lt in H
         end.
  tauto.
Qed.

Ltac unfold_cp :=
  unfold formulate, np_array2, cp_Variable, cp_Variable0, cp_matmul, cp_dot,
    cp_mul, cp_add, cp_sub, cp_neg, cp_sum, cp_eq, cp_ge, py_div, bind, ret,
    raise.

Ltac red_cp :=
  cbn -[Qeq_bool Qdiv Qmult Qminus Qplus inject_Z Z.to_nat Nat.eqb length Z.leb
        Z.ltb rectangular well_dimensioned program_of].

Ltac step_cp :=
  match goal with
  | |- context [Nat.eqb ?a ?b] => destruct (Nat.eqb_spec a b)
  | |- context [Z.leb ?a ?b] => destruct (Z.leb_spec a b)
  end.

(** The formulation in closed form: a shape error when the dimensions
    disagree, the division by zero of the CVaR coefficient, or the program. *)
Lemma formulate_spec (prob : Problem) (wd : world) :
  formulate prob wd =
    if well_dimensioned prob
    then if Qeq_bool ((1 - cvar_alpha prob) * inject_Z (n_scenarios prob)) 0
         then (Raise ZeroDivisionError, wd)
         else (Ok (program_of prob), wd)
    else (Raise ValueError, wd).
Proof.
  destruct (well_dimensioned prob) eqn:Hwd.
  - apply well_dimensioned_true in Hwd.
    destruct Hwd as (Hr & HN & HT & ? & ? & ? & ? & ? & ?).
    unfold_cp. rewrite Hr. red_cp.
    repeat (step_cp; [try lia | try lia]; red_cp).
    rewrite inject_Z_pos_nonzero by assumption. red_cp.
    destruct (Qeq_bool _ 0); reflexivity.
  - apply well_dimensioned_false in Hwd.
    unfold_cp.
    destruct (rectangular (asset_scenarios prob)) eqn:Hr; [|reflexivity].
    red_cp.
    repeat (step_cp; red_cp; try reflexivity).
    all: try (exfalso; destruct Hwd as [Hwd|Hwd]; [discriminate|]; lia).
Qed.

Lemma formulate_inv (prob : Problem) (wd wd' : world) (lp : LinearProgram) :
  formulate prob wd = (Ok lp, wd') ->
  lp = program_of prob /\ wd' = wd /\ well_dimensioned prob = true /\
  ~ (1 - cvar_alpha prob) * inject_Z (n_scenarios prob) == 0.
Proof.
  rewrite formulate_spec.
  destruct (well_dimensioned prob); [|discriminate].
  destruct (Qeq_bool _ 0) eqn:E; [discriminate|].
  intros H. injection H as <- <-.
  repeat split; auto. now apply Qeq_bool_neq.
Qed.

Lemma formulate_raise_inv (prob : Problem) (wd wd' : world) (e : exn) :
  formulate prob wd = (Raise e, wd') ->
  wd' = wd /\ (e = ValueError \/ e = ZeroDivisionError).
Proof.
  rewrite formulate_spec.
  destruct (well_dimensioned prob).
  - destruct (Qeq_bool _ 0); [|discriminate].
    intros H. injection H as <- <-. auto.
  - intros H. injection H as <- <-. auto.
Qed.

(** ** The cascade and the function as a whole *)

Lemma cascade_spec (be : backend) (lp : LinearProgram) :
  cascade be lp initial_world =
    match be CLARABEL lp with
    | Returns st vals v =>
        (Ok (mkSolved st vals v), mkWorld [CLARABEL] None)
    | Raises _ =>
        match be SCS lp with
        | Returns st vals v =>
            (Ok (mkSolved st vals v), mkWorld [CLARABEL; SCS] None)
        | Raises _ =>
            match be OSQP lp with
            | Returns st vals v =>
                (Ok (mkSolved st vals v), mkWorld [CLARABEL; SCS; OSQP] None)
            | Raises e => (Raise e, mkWorld [CLARABEL; SCS; OSQP] None)
            end
        end
    end.
Proof.
  unfold cascade, try_except, problem_solve. cbn.
  destruct (be CLARABEL lp); [|reflexivity].
  destruct (be SCS lp); [|reflexivity].
  destruct (be OSQP lp); reflexivity.
Qed.

Lemma extract_spec (prob : Problem) (r : solved) (wd : world) :
  well_dimensioned prob = true ->
  ~ (1 - cvar_alpha prob) * inject_Z (n_scenarios prob) == 0 ->
  extract prob r wd =
    if is_optimal (status r)
    then match values r with
         | Some sigma => (Ok (extracted prob r sigma), wd)
         | None => (Raise TypeError, wd)
         end
    else (Ok (fallback prob (status r)), wd).
Proof.
  intros Hwd Ha. apply well_dimensioned_true in Hwd.
  destruct Hwd as (_ & _ & HT & _).
  unfold extract. destruct (is_optimal (status r)); [|reflexivity].
  cbn [negb]. unfold py_div, bind.
  rewrite inject_Z_pos_nonzero by assumption. unfold ret at 1.
  destruct (values r) as [sigma|]; [|reflexivity].
  destruct (Qeq_bool _ 0) eqn:E.
  - apply Qeq_bool_eq in E. contradiction.
  - reflexivity.
Qed.

(** The function after a formulation that succeeded. *)
Lemma run_formulated (be : backend) (prob : Problem) lp wd0 :
  formulate prob initial_world = (Ok lp, wd0) ->
  run be prob =
    match guarded be prob lp initial_world with
    | (Ok sol, wd1) => (Ok sol, written wd1 sol)
    | (Raise _, wd1) =>
        (Ok (fallback prob "error"), written wd1 (fallback prob "error"))
    end.
Proof.
  intros H. destruct (formulate_inv _ _ _ _ H) as (_ & -> & _).
  unfold run, solve_portfolio_lp, bind at 1. rewrite H.
  unfold bind, try_except, write_solution, ret, written.
  destruct (guarded be prob lp initial_world) as [[sol|e] wd1]; reflexivity.
Qed.

(** The function after a formulation that raised. *)
Lemma run_not_formulated (be : backend) (prob : Problem) e wd0 :
  formulate prob initial_world = (Raise e, wd0) ->
  run be prob = (Raise e, initial_world).
Proof.
  intros H. destruct (formulate_raise_inv _ _ _ _ H) as [-> _].
  unfold run, solve_portfolio_lp, bind at 1. rewrite H. reflexivity.
Qed.

Lemma guarded_spec (be : backend) (prob : Problem) :
  well_dimensioned prob = true ->
  ~ (1 - cvar_alpha prob) * inject_Z (n_scenarios prob) == 0 ->
  guarded be prob (program_of prob) initial_world =
    match cascade be (program_of prob) initial_world with
    | (Ok r, wd1) =>
        if is_optimal (status r)
        then match values r with
             | Some sigma => (Ok (extracted prob r sigma), wd1)
             | None => (Raise TypeError, wd1)
             end
        else (Ok (fallback prob (status r)), wd1)
    | (Raise e, wd1) => (Raise e, wd1)
    end.
Proof.
  intros Hwd Ha. unfold guarded, bind.
  destruct (cascade be (program_of prob) initial_world) as [[r|e] wd1];
    [|reflexivity].
  now apply extract_spec.
Qed.

(** Every solution the function returns is the extracted one or a
    fallback, and it is the one written to the file. *)
Lemma run_ok_inv (be : backend) (prob : Problem) sol wd :
  run be prob = (Ok sol, wd) ->
  well_dimensioned prob = true /\
  ~ (1 - cvar_alpha prob) * inject_Z (n_scenarios prob) == 0 /\
  solution_file wd = Some sol /\
  ((exists r wd1 sigma,
       cascade be (program_of prob) initial_world = (Ok r, wd1) /\
       is_optimal (status r) = true /\ values r = Some sigma /\
       sol = extracted prob r sigma)
   \/ (is_optimal (solver_status sol) = false /\
       sol = fallback prob (solver_status sol))).
Proof.
  intros H.
  destruct (formulate prob initial_world) as [[lp|e] wd0] eqn:Hf.
  - destruct (formulate_inv _ _ _ _ Hf) as (-> & -> & Hwd & Ha).
    rewrite (run_formulated _ _ _ _ Hf) in H.
    rewrite (guarded_spec be prob Hwd Ha) in H.
    split; [assumption|]. split; [assumption|].
    destruct (cascade be (program_of prob) initial_world) as [[r|e] wd1] eqn:Hc.
    + destruct (is_optimal (status r)) eqn:Hst.
      * destruct (values r) as [sigma|] eqn:Hv.
        -- injection H as <- <-. split; [reflexivity|].
           left. exists r, wd1, sigma. auto.
        -- injection H as <- <-. split; [reflexivity|]. right. auto.
      * injection H as <- <-. split; [reflexivity|]. right. cbn. auto.
    + injection H as <- <-. split; [reflexivity|]. right. auto.
  - rewrite (run_not_formulated _ _ _ _ Hf) in H. discriminate.
Qed.

(** ** The fallback solution *)

(** C1. When the formulated program was handed to the solvers and the
    attempt ended with a status outside optimal / optimal_inaccurate, or
    the guarded solve phase raised, the function returns (and writes) the
    fallback solution: the previous weights and cash unchanged, an infinite
    objective, the four component metrics 0, and as status the observed
    one, or "error" after an exception. *)
Theorem C1_fallback_solution (be : backend) (prob : Problem)
    (lp : LinearProgram) (wd0 : world) (tag : string) :
  formulate prob initial_world = (Ok lp, wd0) ->
  (exists r wd1, cascade be lp initial_world = (Ok r, wd1) /\
                 is_optimal (status r) = false /\ tag = status r)
  \/ (exists e wd1, guarded be prob lp initial_world = (Raise e, wd1) /\
                    tag = "error"%string) ->
  exists sol wd,
    run be prob = (Ok sol, wd) /\ solution_file wd = Some sol /\
    asset_weights sol = prev_weights prob /\
    cash_weight sol = prev_cash prob /\
    objective_value sol = Inf /\
    lpm1_value sol = 0 /\ cvar_value sol = 0 /\
    turnover sol = 0 /\ beta_penalty sol = 0 /\
    solver_status sol = tag.
Proof.
  intros Hf Hfail.
  rewrite (run_formulated be prob lp wd0 Hf).
  destruct (formulate_inv _ _ _ _ Hf) as (-> & _ & Hwd & Ha).
  destruct Hfail as [(r & wd1 & Hc & Hst & ->) | (e & wd1 & Hg & ->)].
  - rewrite (guarded_spec be prob Hwd Ha), Hc, Hst.
    exists (fallback prob (status r)), (written wd1 (fallback prob (status r))).
    cbn. repeat split; reflexivity.
  - rewrite Hg.
    exists (fallback prob "error"), (written wd1 (fallback prob "error")).
    cbn. repeat split; reflexivity.
Qed.

Lemma C1_fallback_solution_witness :
  exists sol wd,
    run (backend_of not_installed (Returns "infeasible" None Inf) not_installed)
        example_problem = (Ok sol, wd) /\ solution_file wd = Some sol /\
    asset_weights sol = prev_weights example_problem /\
    cash_weight sol = prev_cash example_problem /\
    objective_value sol = Inf /\
    lpm1_value sol = 0 /\ cvar_value sol = 0 /\
    turnover sol = 0 /\ beta_penalty sol = 0 /\
    solver_status sol = "infeasible"%string.
Proof.
  apply (C1_fallback_solution _ example_problem (program_of example_problem)
           initial_world).
  - reflexivity.
  - left. exists (mkSolved "infeasible" None Inf), (mkWorld [CLARABEL; SCS] None).
    repeat split; reflexivity.
Defined.

(** ** Exceptions of the formulation *)

(** C5, as the code has it.  An exception raised by the formulation (which
    stands before the [try]) reaches the caller: no solver is invoked, no
    solution is returned and none is written.  An exception raised inside
    the guarded solve phase is absorbed into the fallback solution with
    status "error". *)
Theorem C5_formulation_exceptions_propagate (be : backend) (prob : Problem) :
  (forall e wd0,
      formulate prob initial_world = (Raise e, wd0) ->
      run be prob = (Raise e, initial_world))
  /\ (forall lp wd0 e wd1,
        formulate prob initial_world = (Ok lp, wd0) ->
        guarded be prob lp initial_world = (Raise e, wd1) ->
        run be prob = (Ok (fallback prob "error"),
                       written wd1 (fallback prob "error"))).
Proof.
  split.
  - intros e wd0 Hf. now apply run_not_formulated with wd0.
  - intros lp wd0 e wd1 Hf Hg.
    rewrite (run_formulated be prob lp wd0 Hf), Hg. reflexivity.
Qed.

Lemma C5_formulation_exceptions_propagate_witness :
  run (backend_of not_installed not_installed not_installed)
      (with_cvar_alpha example_problem 1)
    = (Raise ZeroDivisionError, initial_world)
  /\ run (backend_of not_installed not_installed not_installed)
         example_problem
     = (Ok (fallback example_problem "error"),
        written (mkWorld [CLARABEL; SCS; OSQP] None)
                (fallback example_problem "error")).
Proof.
  split.
  - apply (proj1 (C5_formulation_exceptions_propagate _ _)) with initial_world.
    reflexivity.
  - apply (proj2 (C5_formulation_exceptions_propagate _ _))
      with (program_of example_problem) initial_world
           (SolverError "The solver is not installed.");
      reflexivity.
Defined.

(** C5 as stated fails: with [cvar_alpha = 1] the formulation raises
    ZeroDivisionError, and the call ends with that exception instead of a
    fallback solution. *)
Lemma C5_counterexample :
  let be := backend_of not_installed not_installed not_installed in
  let prob := with_cvar_alpha example_problem 1 in
  formulate prob initial_world = (Raise ZeroDivisionError, initial_world)
  /\ ~ (exists sol wd, run be prob = (Ok sol, wd)).
Proof.
  split; [reflexivity|].
  intros (sol & wd & H). discriminate H.
Qed.

(** C10, as the code has it.  With [cvar_alpha = 1] every call ends with an
    exception raised before the [try]: no solver is invoked, no solution is
    returned or written.  When the dimensions of the input are consistent
    the exception is the ZeroDivisionError of the CVaR coefficient. *)
Theorem C10_cvar_alpha_one_raises (be : backend) (prob : Problem) :
  cvar_alpha prob == 1 ->
  (exists e, run be prob = (Raise e, initial_world))
  /\ (well_dimensioned prob = true ->
      run be prob = (Raise ZeroDivisionError, initial_world)).
Proof.
  intros Halpha.
  assert (Hz : Qeq_bool ((1 - cvar_alpha prob) * inject_Z (n_scenarios prob)) 0
               = true).
  { apply Qeq_eq_bool. rewrite Halpha. ring. }
  pose proof (formulate_spec prob initial_world) as Hf. rewrite Hz in Hf.
  split.
  - destruct (well_dimensioned prob);
      eexists; eapply run_not_formulated; exact Hf.
  - intros Hwd. rewrite Hwd in Hf. eapply run_not_formulated; exact Hf.
Qed.

Lemma C10_cvar_alpha_one_raises_witness :
  (exists e, run (backend_of not_installed not_installed not_installed)
                 (with_cvar_alpha example_problem 1)
             = (Raise e, initial_world))
  /\ (well_dimensioned (with_cvar_alpha example_problem 1) = true ->
      run (backend_of not_installed not_installed not_installed)
          (with_cvar_alpha example_problem 1)
      = (Raise ZeroDivisionError, initial_world)).
Proof.
  apply (C10_cvar_alpha_one_raises _ (with_cvar_alpha example_problem 1)).
  reflexivity.
Defined.

(** C10 as stated fails: an input with [cvar_alpha = 1] that gives three
    previous weights for two assets ends with the ValueError of
    [w - w_prev], before the CVaR term is reached. *)
Lemma C10_counterexample :
  let be := backend_of not_installed not_installed not_installed in
  let prob := with_prev_weights (with_cvar_alpha example_problem 1) [0; 0; 0] in
  cvar_alpha prob == 1 /\ (1 <= n_scenarios prob)%Z
  /\ run be prob = (Raise ValueError, initial_world)
  /\ run be prob <> (Raise ZeroDivisionError, initial_world).
Proof.
  repeat split; try reflexivity.
  - cbn. lia.
  - discriminate.
Qed.

(** ** The solver cascade *)


(** ** The extracted solution *)

(** C8. A returned solution whose status is optimal or optimal_inaccurate
    carries the values the inspected solver call assigned: the weights are
    [w] and [w_c], and the four metrics are computed from [s_lpm], [eta],
    [u], [z] and [v] by the formulas of the objective terms. *)
Theorem C8_metrics_from_optimized_values (be : backend) (prob : Problem)
    (sol : Solution) (wd : world) :
  run be prob = (Ok sol, wd) ->
  is_optimal (solver_status sol) = true ->
  exists r wd1 sigma,
    cascade be (program_of prob) initial_world = (Ok r, wd1) /\
    values r = Some sigma /\ status r = solver_status sol /\
    asset_weights sol = w_val sigma /\ cash_weight sol = w_c_val sigma /\
    lpm1_value sol
      = (1 / inject_Z (n_scenarios prob)) * Qsum (s_lpm_val sigma) /\
    cvar_value sol
      = eta_val sigma
        + (1 / ((1 - cvar_alpha prob) * inject_Z (n_scenarios prob)))
          * Qsum (u_val sigma) /\
    turnover sol = Qsum (z_val sigma) /\
    beta_penalty sol = stress_weight prob * v_val sigma.
Proof.
  intros Hrun Hopt.
  destruct (run_ok_inv be prob sol wd Hrun) as (_ & _ & _ & Hcase).
  destruct Hcase as [(r & wd1 & sigma & Hc & _ & Hv & ->) | [Hno _]].
  - exists r, wd1, sigma. cbn. repeat split; auto.
  - rewrite Hno in Hopt. discriminate.
Qed.

Lemma C8_metrics_from_optimized_values_witness :
  exists r wd1 sigma,
    cascade (backend_of (Returns "optimal" (Some example_assignment) (Fin 1))
                        not_installed not_installed)
            (program_of example_problem) initial_world = (Ok r, wd1) /\
    values r = Some sigma /\ status r = "optimal"%string /\
    [1#2; 1#2] = w_val sigma /\ 0 = w_c_val sigma /\
    (1 / 3) * (1 + (1 + (1 + 0)))
      = (1 / inject_Z 3) * Qsum (s_lpm_val sigma) /\
    0 + (1 / ((1 - (8#10)) * 3)) * (1 + (1 + (1 + 0)))
      = eta_val sigma + (1 / ((1 - (8#10)) * inject_Z 3)) * Qsum (u_val sigma) /\
    0 + (0 + 0) = Qsum (z_val sigma) /\
    1 * (3#20) = 1 * v_val sigma.
Proof.
  eapply (C8_metrics_from_optimized_values
            (backend_of (Returns "optimal" (Some example_assignment) (Fin 1))
                        not_installed not_installed)
            example_problem
            (mkSolution [1#2; 1#2] 0 (Fin 1)
               ((1 / 3) * (1 + (1 + (1 + 0))))
               (0 + (1 / ((1 - (8#10)) * 3)) * (1 + (1 + (1 + 0))))
               (0 + (0 + 0)) (1 * (3#20)) "optimal")).
  - reflexivity.
  - reflexivity.
Defined.

(** ** Inputs outside the specified ranges *)




(** ** Lists of rationals *)

Lemma zip_with_length (f : Q -> Q -> Q) (l1 l2 : list Q) :
  length l1 = length l2 -> length (zip_with f l1 l2) = length l1.
Proof.
  revert l2. induction l1 as [|x l1 IH]; intros [|y l2] H; cbn in *;
    try discriminate; auto.
Qed.

Lemma nth_zip_with (f : Q -> Q -> Q) (l1 l2 : list Q) (i : nat) (d d1 d2 : Q) :
  (i < length l1)%nat -> (i < length l2)%nat ->
  nth i (zip_with f l1 l2) d = f (nth i l1 d1) (nth i l2 d2).
Proof.
  revert l2 i. induction l1 as [|x l1 IH]; intros [|y l2] [|i] H1 H2;
    cbn in *; try lia; auto.
  apply IH; lia.
Qed.

Lemma nth_map_lt {A : Type} (f : A -> Q) (l : list A) (i : nat) (d : Q) (da : A) :
  (i < length l)%nat -> nth i (map f l) d = f (nth i l da).
Proof.
  revert i. induction l as [|x l IH]; intros [|i] H; cbn in *; try lia; auto.
  apply IH; lia.
Qed.

Lemma Forall2_nth_iff (P : Q -> Q -> Prop) (l1 l2 : list Q) (n : nat) :
  length l1 = n -> length l2 = n ->
  (Forall2 P l1 l2 <->
   forall i, (i < n)%nat -> P (nth i l1 0) (nth i l2 0)).
Proof.
  revert l2 n. induction l1 as [|x l1 IH]; intros [|y l2] n H1 H2;
    cbn in *; subst; try discriminate.
  - split; [intros _ i Hi; lia | constructor].
  - injection H2 as H2. split.
    + intros H. inversion H; subst. intros [|i] Hi; [assumption|].
      apply (proj1 (IH l2 (length l1) eq_refl H2)); [assumption|lia].
    + intros H. constructor.
      * apply (H 0%nat). lia.
      * apply (proj2 (IH l2 (length l1) eq_refl H2)).
        intros i Hi. apply (H (S i)). lia.
Qed.

Lemma Forall_nth_iff (P : Q -> Prop) (l : list Q) (n : nat) :
  length l = n ->
  (Forall P l <-> forall i, (i < n)%nat -> P (nth i l 0)).
Proof.
  intros <-. rewrite Forall_nth. split.
  - intros H i Hi. now apply H.
  - intros H i d Hi. rewrite (nth_indep l d 0 Hi). now apply H.
Qed.

Lemma Qsum_nonneg (l : list Q) : Forall (fun q => 0 <= q) l -> 0 <= Qsum l.
Proof.
  induction 1 as [|x l Hx _ IH]; cbn; [apply Qle_refl|].
  unfold Qsum in IH. lra.
Qed.

Lemma Qsum_le (l1 l2 : list Q) :
  Forall2 Qle l1 l2 -> Qsum l1 <= Qsum l2.
Proof.
  induction 1 as [|x y l1 l2 Hxy _ IH]; cbn; [apply Qle_refl|].
  unfold Qsum in IH. lra.
Qed.

(** ** The objective *)

Lemma objective_eval (prob : Problem) (sigma : assignment) :
  (0 < n_scenarios prob)%Z ->
  objective_at (program_of prob) sigma == spec_objective prob sigma.
Proof.
  intros HT.
  assert (HTq : ~ inject_Z (n_scenarios prob) == 0).
  { unfold Qeq. cbn. lia. }
  unfold objective_at, spec_objective.
  cbn -[Qplus Qmult Qdiv Qminus inject_Z Qsum].
  unfold Qsum at 1. cbn [fold_right].
  set (k_u := 1 / ((1 - cvar_alpha prob) * inject_Z (n_scenarios prob))).
  field. exact HTq.
Qed.

(** C2. The objective of the formulated program is, at every assignment of
    the variables, the sum the specification writes:
    lambda_lpm1 * (1/T) * sum(s_lpm)
    + lambda_cvar * (eta + (1/((1-alpha)*T)) * sum(u))
    + kappa * sum(z) + lambda_beta * stress_weight * v. *)
Theorem C2_objective (prob : Problem) (lp : LinearProgram) (wd wd' : world)
    (sigma : assignment) :
  formulate prob wd = (Ok lp, wd') ->
  (0 < n_scenarios prob)%Z ->
  0 < cvar_alpha prob /\ cvar_alpha prob < 1 ->
  objective_at lp sigma == spec_objective prob sigma.
Proof.
  intros Hf HT _.
  destruct (formulate_inv _ _ _ _ Hf) as (-> & _).
  now apply objective_eval.
Qed.

Lemma C2_objective_witness :
  objective_at (program_of example_problem) example_assignment
  == spec_objective example_problem example_assignment.
Proof.
  apply (C2_objective example_problem (program_of example_problem)
           initial_world initial_world).
  - reflexivity.
  - reflexivity.
  - split; reflexivity.
Defined.

(** ** The constraints *)

Section Constraints.
Variable prob : Problem.
Variable sigma : assignment.
Hypothesis Hwd : well_dimensioned prob = true.
Hypothesis Hshape : well_shaped (program_of prob) sigma.

Let N := Z.to_nat (n_assets prob).
Let T := Z.to_nat (n_scenarios prob).

Lemma shapes_of_assignment :
  length (w_val sigma) = N /\ length (s_lpm_val sigma) = T /\
  length (u_val sigma) = T /\ length (z_val sigma) = N.
Proof.
  unfold well_shaped, program_of in Hshape. cbn in Hshape.
  repeat match goal with
         | H : Forall _ (_ :: _) |- _ => inversion H; subst; clear H
         end.
  unfold has_shape in *. cbn in *.
  repeat match goal with
         | H : Vector _ = Vector _ |- _ => injection H as H
         end.
  auto.
Qed.

Lemma eval_active_return :
  eval sigma (active_return prob) = Vec (active_vector prob sigma).
Proof. reflexivity. Qed.

Lemma active_vector_length : length (active_vector prob sigma) = T.
Proof.
  destruct (well_dimensioned_true prob Hwd)
    as (_ & _ & _ & _ & HR & Hrc & Hb & _).
  unfold active_vector.
  rewrite !zip_with_length; rewrite ?length_map; try lia.
  rewrite zip_with_length; rewrite ?length_map; lia.
Qed.

Lemma nth_active_vector (t : nat) :
  (t < T)%nat -> nth t (active_vector prob sigma) 0 = active_at prob sigma t.
Proof.
  intros Ht.
  destruct (well_dimensioned_true prob Hwd)
    as (_ & _ & _ & _ & HR & Hrc & Hb & _).
  unfold active_vector, active_at.
  rewrite (nth_zip_with Qminus _ _ t 0 0 0).
  2:{ rewrite zip_with_length; rewrite ?length_map; lia. }
  2:{ lia. }
  rewrite (nth_zip_with Qplus _ _ t 0 0 0) by (rewrite length_map; lia).
  rewrite (nth_map_lt _ (asset_scenarios prob) t 0 []) by lia.
  rewrite (nth_map_lt _ (cash_scenarios prob) t 0 0) by lia.
  reflexivity.
Qed.

Lemma feasible_iff :
  feasible (program_of prob) sigma <-> spec_constraints prob sigma.
Proof.
  destruct shapes_of_assignment as (Hw & Hs & Hu & Hz).
  destruct (well_dimensioned_true prob Hwd)
    as (_ & _ & _ & _ & HR & Hrc & Hb & Hprev & Hbetas).
  pose proof active_vector_length as Ha.
  unfold feasible, spec_constraints, program_of.
  cbn [variables constraints]. unfold program_constraints.
  rewrite !Forall_cons_iff.
  unfold in_domain, holds.
  cbn [vnonneg vname var_w var_w_c var_s_lpm var_eta var_u var_z var_v
       value_of as_vector].
  cbn [eval vname var_w var_w_c var_s_lpm var_eta var_u var_z var_v
       value_of as_vector delta_w beta_dev].
  rewrite eval_active_return.
  cbn [lift2 val_map rel2 as_vector].
  fold N T in Hw, Hs, Hu, Hz, HR, Hrc, Hb, Hprev, Hbetas, Ha |- *.
  rewrite (Forall_nth_iff _ (w_val sigma) N Hw).
  rewrite (Forall_nth_iff _ (s_lpm_val sigma) T Hs).
  rewrite (Forall_nth_iff _ (u_val sigma) T Hu).
  rewrite (Forall_nth_iff _ (z_val sigma) N Hz).
  rewrite (Forall_nth_iff _ [w_c_val sigma] 1%nat eq_refl).
  rewrite (Forall_nth_iff _ [v_val sigma] 1%nat eq_refl).
  rewrite (Forall2_nth_iff _ (s_lpm_val sigma) _ T Hs)
    by (rewrite length_map; exact Ha).
  rewrite (Forall2_nth_iff _ (u_val sigma) _ T Hu)
    by (rewrite !length_map; exact Ha).
  rewrite (Forall2_nth_iff _ (z_val sigma) (zip_with _ _ _) N Hz)
    by (rewrite zip_with_length; lia).
  rewrite (Forall2_nth_iff _ (z_val sigma) (map _ _) N Hz)
    by (rewrite length_map, zip_with_length; lia).
  split.
  - intros [(Dw & Dwc & Ds & _ & Du & Dz & Dv & _)
            (C1 & C2 & C3 & C4 & C5 & C6 & C7 & _)].
    repeat split.
    + exact C1.
    + specialize (C2 t H).
      rewrite (nth_map_lt _ _ t 0 0) in C2 by lia.
      now rewrite nth_active_vector in C2.
    + specialize (C3 t H).
      rewrite (nth_map_lt _ _ t 0 0) in C3 by (rewrite length_map; lia).
      rewrite (nth_map_lt _ _ t 0 0) in C3 by lia.
      now rewrite nth_active_vector in C3.
    + specialize (C4 i H).
      now rewrite (nth_zip_with _ _ _ i 0 0 0) in C4 by lia.
    + specialize (C5 i H).
      rewrite (nth_map_lt _ _ i 0 0) in C5 by (rewrite zip_with_length; lia).
      now rewrite (nth_zip_with _ _ _ i 0 0 0) in C5 by lia.
    + exact C6.
    + exact C7.
    + exact Dw.
    + apply (Dwc 0%nat). lia.
    + exact Ds.
    + exact Du.
    + exact Dz.
    + apply (Dv 0%nat). lia.
  - intros (C1 & C23 & C45 & C6 & C7 & Dw & Dwc & Ds & Du & Dz & Dv).
    split; repeat split; auto; try apply Forall_nil.
    + intros [|i] Hi; [exact Dwc | lia].
    + intros [|i] Hi; [exact Dv | lia].
    + intros t Ht.
      rewrite (nth_map_lt _ _ t 0 0) by lia.
      rewrite nth_active_vector by assumption. now apply C23.
    + intros t Ht.
      rewrite (nth_map_lt _ _ t 0 0) by (rewrite length_map; lia).
      rewrite (nth_map_lt _ _ t 0 0) by lia.
      rewrite nth_active_vector by assumption. now apply C23.
    + intros i Hi.
      rewrite (nth_zip_with _ _ _ i 0 0 0) by lia. now apply C45.
    + intros i Hi.
      rewrite (nth_map_lt _ _ i 0 0) by (rewrite zip_with_length; lia).
      rewrite (nth_zip_with _ _ _ i 0 0 0) by lia. now apply C45.
Qed.
End Constraints.

(** C3. The assignments that satisfy the constraints of the formulated
    program, variable domains included, are exactly those that satisfy
    the constraint set of the specification: the budget equation, the two
    epigraph inequalities per scenario, the two turnover inequalities per
    asset, the two beta inequalities, every variable but [eta]
    nonnegative. *)
Theorem C3_constraints (prob : Problem) (lp : LinearProgram) (wd wd' : world)
    (sigma : assignment) :
  formulate prob wd = (Ok lp, wd') ->
  well_shaped lp sigma ->
  (feasible lp sigma <-> spec_constraints prob sigma).
Proof.
  intros Hf Hshape.
  destruct (formulate_inv _ _ _ _ Hf) as (-> & _ & Hwd & _).
  now apply feasible_iff.
Qed.

Lemma example_assignment_shaped :
  well_shaped (program_of example_problem) example_assignment.
Proof. repeat constructor. Qed.

Lemma C3_constraints_witness :
  feasible (program_of example_problem) example_assignment
  <-> spec_constraints example_problem example_assignment.
Proof.
  apply (C3_constraints example_problem (program_of example_problem)
           initial_world initial_world).
  - reflexivity.
  - exact example_assignment_shaped.
Defined.

(** ** The budget *)

Lemma cascade_returned (be : backend) (lp : LinearProgram) r wd1 :
  cascade be lp initial_world = (Ok r, wd1) ->
  exists s, be s lp = Returns (status r) (values r) (value r).
Proof.
  rewrite cascade_spec.
  destruct (be CLARABEL lp) eqn:E1.
  - destruct (be SCS lp) eqn:E2.
    + destruct (be OSQP lp) eqn:E3; [discriminate|].
      intros H. injection H as <- <-. now exists OSQP.
    + intros H. injection H as <- <-. now exists SCS.
  - intros H. injection H as <- <-. now exists CLARABEL.
Qed.

(** C6. Let the solver keep the equality constraints of the program within
    [eps].  Then a returned solution with status optimal or
    optimal_inaccurate has [sum(asset_weights) + cash_weight] within [eps]
    of 1, and any other returned solution (a fallback) has it within [eps]
    of 1 exactly when the previous weights and cash did. *)
Theorem C6_budget (eps : Q) (be : backend) (prob : Problem)
    (sol : Solution) (wd : world) :
  equalities_within eps be (program_of prob) ->
  run be prob = (Ok sol, wd) ->
  (is_optimal (solver_status sol) = true ->
   budget_within eps (asset_weights sol) (cash_weight sol))
  /\ (is_optimal (solver_status sol) = false ->
      (budget_within eps (asset_weights sol) (cash_weight sol)
       <-> budget_within eps (prev_weights prob) (prev_cash prob))).
Proof.
  intros Htol Hrun.
  destruct (run_ok_inv be prob sol wd Hrun) as (_ & _ & _ & Hcase).
  destruct Hcase as [(r & wd1 & sigma & Hc & Hopt & Hv & ->) | [Hno ->]].
  - split.
    + intros _. cbn [extracted asset_weights cash_weight].
      destruct (cascade_returned be _ r wd1 Hc) as [s Hs].
      rewrite Hv in Hs.
      specialize (Htol s (status r) sigma (value r)
                       (EAdd (ESum (EVar (var_w prob))) (EVar var_w_c))
                       (EConst (Sc 1)) Hs Hopt).
      apply Htol. left. reflexivity.
    + cbn [extracted solver_status]. rewrite Hopt. discriminate.
  - split.
    + cbn [fallback solver_status] in *. rewrite Hno. discriminate.
    + intros _. reflexivity.
Qed.

Lemma example_backend_tolerance :
  equalities_within (1 # 1000000)
    (backend_of not_installed
                (Returns "optimal_inaccurate" (Some example_assignment) (Fin 1))
                not_installed)
    (program_of example_problem).
Proof.
  intros s st sigma objval lhs rhs Hs _ Hin.
  destruct s; try discriminate Hs.
  injection Hs as _ <- _.
  cbn in Hin.
  repeat (destruct Hin as [Hin|Hin]; [try discriminate Hin|]);
    try contradiction.
  injection Hin as <- <-. cbn. discriminate.
Qed.

Lemma C6_budget_witness :
  let sol := mkSolution [1#2; 1#2] 0 (Fin 1)
               ((1 / 3) * (1 + (1 + (1 + 0))))
               (0 + (1 / ((1 - (8#10)) * 3)) * (1 + (1 + (1 + 0))))
               (0 + (0 + 0)) (1 * (3#20)) "optimal_inaccurate" in
  (is_optimal (solver_status sol) = true ->
   budget_within (1 # 1000000) (asset_weights sol) (cash_weight sol))
  /\ (is_optimal (solver_status sol) = false ->
      (budget_within (1 # 1000000) (asset_weights sol) (cash_weight sol)
       <-> budget_within (1 # 1000000) (prev_weights example_problem)
                         (prev_cash example_problem))).
Proof.
  intro sol.
  apply (C6_budget (1 # 1000000)
           (backend_of not_installed
              (Returns "optimal_inaccurate" (Some example_assignment) (Fin 1))
              not_installed)
           example_problem sol
           (written (mkWorld [CLARABEL; SCS] None) sol)).
  - exact example_backend_tolerance.
  - reflexivity.
Defined.

(** ** Turnover *)

Section Turnover.
Variable prob : Problem.
Variable sigma : assignment.
Hypothesis Hwd : well_dimensioned prob = true.
Hypothesis Hshape : well_shaped (program_of prob) sigma.
Hypothesis Hfeas : feasible (program_of prob) sigma.

Let N := Z.to_nat (n_assets prob).

Lemma tighten_shaped : well_shaped (program_of prob) (tighten prob sigma).
Proof.
  destruct (shapes_of_assignment prob sigma Hshape) as (Hw & Hs & Hu & Hz).
  destruct (well_dimensioned_true prob Hwd)
    as (_ & _ & _ & _ & _ & _ & _ & Hprev & _).
  unfold well_shaped, program_of, has_shape. cbn.
  repeat constructor; cbn; try (f_equal; assumption).
  all: f_equal; rewrite zip_with_length; lia.
Qed.

Lemma tighten_feasible : feasible (program_of prob) (tighten prob sigma).
Proof.
  destruct (shapes_of_assignment prob sigma Hshape) as (Hw & Hs & Hu & Hz).
  destruct (well_dimensioned_true prob Hwd)
    as (_ & _ & _ & _ & _ & _ & _ & Hprev & _).
  apply (feasible_iff prob (tighten prob sigma) Hwd tighten_shaped).
  apply (feasible_iff prob sigma Hwd Hshape) in Hfeas.
  destruct Hfeas as (C1 & C23 & C45 & C6 & C7 & Dw & Dwc & Ds & Du & Dz & Dv).
  unfold spec_constraints.
  repeat split; auto; try (now apply C23).
  - cbn [tighten z_val w_val].
    rewrite (nth_zip_with _ _ _ i 0 0 0) by lia. apply Qle_Qabs.
  - cbn [tighten z_val w_val].
    rewrite (nth_zip_with _ _ _ i 0 0 0) by lia.
    rewrite <- Qabs_opp. apply Qle_Qabs.
  - intros i Hi. cbn [tighten z_val].
    rewrite (nth_zip_with _ _ _ i 0 0 0) by lia. apply Qabs_nonneg.
Qed.

(** Each slack bounds the absolute change of its weight. *)
Lemma slack_bounds_change :
  Forall2 Qle
    (zip_with (fun x y => Qabs (x - y)) (w_val sigma) (prev_weights prob))
    (z_val sigma).
Proof.
  destruct (shapes_of_assignment prob sigma Hshape) as (Hw & Hs & Hu & Hz).
  destruct (well_dimensioned_true prob Hwd)
    as (_ & _ & _ & _ & _ & _ & _ & Hprev & _).
  apply (feasible_iff prob sigma Hwd Hshape) in Hfeas.
  destruct Hfeas as (_ & _ & C45 & _).
  apply (Forall2_nth_iff _ _ _ N); [rewrite zip_with_length; lia | exact Hz |].
  intros i Hi.
  rewrite (nth_zip_with _ _ _ i 0 0 0) by lia.
  destruct (C45 i Hi) as [Hpos Hneg].
  apply Qabs_Qle_condition. split; lra.
Qed.

Lemma direct_turnover_le : direct_turnover prob (w_val sigma) <= Qsum (z_val sigma).
Proof. apply Qsum_le, slack_bounds_change. Qed.

Lemma objective_tighten :
  objective_at (program_of prob) sigma
  - objective_at (program_of prob) (tighten prob sigma)
  == kappa prob * (Qsum (z_val sigma) - direct_turnover prob (w_val sigma)).
Proof.
  destruct (well_dimensioned_true prob Hwd) as (_ & _ & HT & _).
  rewrite !objective_eval by assumption.
  unfold spec_objective, direct_turnover. cbn [tighten s_lpm_val eta_val u_val z_val v_val w_val].
  ring.
Qed.

(** At an assignment no worse than optimal by more than [eps], the sum of
    the slacks exceeds the turnover by at most [eps / kappa]. *)
Lemma turnover_gap (eps : Q) :
  optimal_within eps (program_of prob) sigma ->
  kappa prob * (Qsum (z_val sigma) - direct_turnover prob (w_val sigma))
    <= eps.
Proof.
  intros (_ & _ & Hopt).
  specialize (Hopt (tighten prob sigma) tighten_shaped tighten_feasible).
  rewrite <- objective_tighten. lra.
Qed.
End Turnover.

Lemma Forall2_Qle_sum_eq (l1 l2 : list Q) :
  Forall2 Qle l1 l2 -> Qsum l2 <= Qsum l1 -> Forall2 Qeq l1 l2.
Proof.
  induction 1 as [|x y l1 l2 Hxy Hl IH]; intros Hsum; [constructor|].
  pose proof (Qsum_le l1 l2 Hl) as Hle.
  cbn in Hsum. fold (Qsum l1) in Hsum. fold (Qsum l2) in Hsum.
  constructor.
  - lra.
  - apply IH. lra.
Qed.

(** C9, as the code has it.  Let [kappa > 0] and let the values the
    inspected solver call assigned be feasible and optimal for the program
    to within [eps] in objective.  Then the reported turnover, which is
    [sum(z)], is at least [sum(|asset_weights[i] - prev_weights[i]|)] and
    exceeds it by at most [eps / kappa]; when [eps = 0] the two are equal
    and every slack is tight, [z[i] = |w[i] - prev_weights[i]|]. *)
Theorem C9_turnover_consistency (eps : Q) (be : backend) (prob : Problem)
    (sol : Solution) (wd wd1 : world) (r : solved) (sigma : assignment) :
  run be prob = (Ok sol, wd) ->
  is_optimal (solver_status sol) = true ->
  cascade be (program_of prob) initial_world = (Ok r, wd1) ->
  values r = Some sigma ->
  0 < kappa prob ->
  optimal_within eps (program_of prob) sigma ->
  direct_turnover prob (asset_weights sol) <= turnover sol
  /\ kappa prob * (turnover sol - direct_turnover prob (asset_weights sol))
     <= eps
  /\ (eps == 0 ->
      turnover sol == direct_turnover prob (asset_weights sol)
      /\ Forall2 Qeq
           (zip_with (fun x y => Qabs (x - y)) (w_val sigma)
                     (prev_weights prob))
           (z_val sigma)).
Proof.
  intros Hrun Hopt Hc Hv Hk Hbest.
  destruct (run_ok_inv be prob sol wd Hrun) as (Hwd & _ & _ & Hcase).
  destruct Hcase as [(r' & wd1' & sigma' & Hc' & _ & Hv' & ->) | [Hno _]].
  2:{ rewrite Hno in Hopt. discriminate. }
  rewrite Hc in Hc'. injection Hc' as <- <-.
  rewrite Hv in Hv'. injection Hv' as <-.
  cbn [extracted asset_weights turnover].
  destruct Hbest as (Hshape & Hfeas & Hmin).
  pose proof (direct_turnover_le prob sigma Hwd Hshape Hfeas) as Hle.
  pose proof (turnover_gap prob sigma Hwd Hshape Hfeas eps
                (conj Hshape (conj Hfeas Hmin))) as Hgap.
  split; [exact Hle|]. split; [exact Hgap|].
  intros Heps.
  assert (Hge : Qsum (z_val sigma) <= direct_turnover prob (w_val sigma)).
  { rewrite Heps in Hgap.
    destruct (Qlt_le_dec (direct_turnover prob (w_val sigma))
                         (Qsum (z_val sigma))) as [Hlt|]; [|assumption].
    exfalso.
    assert (0 < kappa prob
                * (Qsum (z_val sigma) - direct_turnover prob (w_val sigma))).
    { apply Qmult_lt_0_compat; lra. }
    lra. }
  split.
  - apply Qle_antisym; assumption.
  - apply Forall2_Qle_sum_eq.
    + now apply slack_bounds_change.
    + exact Hge.
Qed.

Ltac concrete_feasible :=
  split; repeat (constructor; cbn); try reflexivity; try discriminate.

Lemma keep_assignment_optimal :
  optimal_within 0 (program_of (tiny_problem 0 0 0 1)) keep_assignment.
Proof.
  split; [repeat constructor|]. split; [concrete_feasible|].
  intros sigma' _ [Hdom _].
  rewrite !objective_eval by reflexivity.
  assert (Hz : 0 <= Qsum (z_val sigma')).
  { apply Qsum_nonneg.
    unfold program_of in Hdom. cbn [variables] in Hdom.
    repeat (apply Forall_cons_iff in Hdom; destruct Hdom as [? Hdom]).
    assumption. }
  assert (E0 : spec_objective (tiny_problem 0 0 0 1) keep_assignment == 0)
    by reflexivity.
  assert (E1 : spec_objective (tiny_problem 0 0 0 1) sigma'
               == Qsum (z_val sigma')).
  { unfold spec_objective.
    cbn [tiny_problem lambda_lpm1 lambda_cvar lambda_beta kappa stress_weight
         n_scenarios cvar_alpha].
    ring. }
  rewrite E0, E1. lra.
Qed.

Lemma C9_turnover_consistency_witness :
  let sol := mkSolution [1] 0 (Fin 0) ((1 / 1) * (0 + 0))
               (0 + (1 / ((1 - (1#2)) * 1)) * (0 + 0)) (0 + 0) (1 * 0)
               "optimal" in
  direct_turnover (tiny_problem 0 0 0 1) (asset_weights sol) <= turnover sol
  /\ kappa (tiny_problem 0 0 0 1)
     * (turnover sol
        - direct_turnover (tiny_problem 0 0 0 1) (asset_weights sol)) <= 0
  /\ (0 == 0 ->
      turnover sol
      == direct_turnover (tiny_problem 0 0 0 1) (asset_weights sol)
      /\ Forall2 Qeq
           (zip_with (fun x y => Qabs (x - y)) (w_val keep_assignment)
                     (prev_weights (tiny_problem 0 0 0 1)))
           (z_val keep_assignment)).
Proof.
  intro sol.
  apply (C9_turnover_consistency 0
           (backend_of (Returns "optimal" (Some keep_assignment) (Fin 0))
                       not_installed not_installed)
           (tiny_problem 0 0 0 1) sol
           (written (mkWorld [CLARABEL] None) sol) (mkWorld [CLARABEL] None)
           (mkSolved "optimal" (Some keep_assignment) (Fin 0))
           keep_assignment).
  - reflexivity.
  - reflexivity.
  - reflexivity.
  - reflexivity.
  - reflexivity.
  - exact keep_assignment_optimal.
Defined.

Lemma slack_assignment_optimal :
  optimal_within 0 (program_of (tiny_problem 1 0 0 0)) slack_assignment.
Proof.
  split; [repeat constructor|]. split; [concrete_feasible|].
  intros sigma' _ [Hdom _].
  rewrite !objective_eval by reflexivity.
  assert (Hs : 0 <= Qsum (s_lpm_val sigma')).
  { apply Qsum_nonneg.
    unfold program_of in Hdom. cbn [variables] in Hdom.
    repeat (apply Forall_cons_iff in Hdom; destruct Hdom as [? Hdom]).
    assumption. }
  assert (E0 : spec_objective (tiny_problem 1 0 0 0) slack_assignment == 0)
    by reflexivity.
  assert (E1 : spec_objective (tiny_problem 1 0 0 0) sigma'
               == Qsum (s_lpm_val sigma')).
  { unfold spec_objective.
    cbn [tiny_problem lambda_lpm1 lambda_cvar lambda_beta kappa stress_weight
         n_scenarios cvar_alpha].
    change (inject_Z 1) with 1. field. }
  rewrite E0, E1. lra.
Qed.

(** C9 as stated fails: with [kappa = 0] the turnover slack carries no
    cost, and an optimum of the program may leave it loose.  Here the
    returned weights are the previous ones, so the turnover is 0, and the
    reported turnover is 1. *)
Lemma C9_counterexample :
  let prob := tiny_problem 1 0 0 0 in
  let be := backend_of (Returns "optimal" (Some slack_assignment) (Fin 0))
                       not_installed not_installed in
  optimal_within 0 (program_of prob) slack_assignment
  /\ exists sol wd,
       run be prob = (Ok sol, wd)
       /\ is_optimal (solver_status sol) = true
       /\ asset_weights sol = w_val slack_assignment
       /\ turnover sol == 1
       /\ direct_turnover prob (asset_weights sol) == 0
       /\ ~ (Qabs (turnover sol - direct_turnover prob (asset_weights sol))
             <= 1 # 1000000).
Proof.
  split; [exact slack_assignment_optimal|].
  eexists; eexists. split; [reflexivity|].
  repeat split; try reflexivity.
  intros H. vm_compute in H. now apply H.
Qed.

(** * Further properties of [solve_portfolio_lp] *)

(** ** What a call leaves behind *)




(** X2. The status of a returned solution tells which one it is: a status
    outside optimal / optimal_inaccurate is carried only by the fallback
    (previous weights and cash, infinite objective, metrics 0). *)
Theorem X2_status_identifies_fallback (be : backend) (prob : Problem)
    (sol : Solution) (wd : world) :
  run be prob = (Ok sol, wd) ->
  is_optimal (solver_status sol) = false ->
  asset_weights sol = prev_weights prob /\
  cash_weight sol = prev_cash prob /\
  objective_value sol = Inf /\
  lpm1_value sol = 0 /\ cvar_value sol = 0 /\
  turnover sol = 0 /\ beta_penalty sol = 0.
Proof.
  intros Hrun Hst.
  destruct (run_ok_inv be prob sol wd Hrun) as (_ & _ & _ & Hcase).
  destruct Hcase as [(r & wd1 & sigma & _ & Hopt & _ & ->) | [_ ->]].
  - cbn in Hst. rewrite Hopt in Hst. discriminate.
  - cbn. repeat split; reflexivity.
Qed.

Lemma X2_status_identifies_fallback_witness :
  let sol := fallback example_problem "unbounded" in
  asset_weights sol = prev_weights example_problem /\
  cash_weight sol = prev_cash example_problem /\
  objective_value sol = Inf /\
  lpm1_value sol = 0 /\ cvar_value sol = 0 /\
  turnover sol = 0 /\ beta_penalty sol = 0.
Proof.
  intro sol.
  apply (X2_status_identifies_fallback
           (backend_of (Returns "unbounded" None Inf) not_installed
                       not_installed)
           example_problem sol
           (written (mkWorld [CLARABEL] None) sol)); reflexivity.
Defined.

(** X3. The previous cash weight takes no part in the optimization: the
    program, the solvers invoked and every successful solution are the
    same whatever [prev_cash] is.  (It is read for the fallback only.) *)
Theorem X3_prev_cash_not_optimized (be : backend) (prob : Problem) (cash : Q)
    (sol : Solution) (wd : world) :
  run be prob = (Ok sol, wd) ->
  is_optimal (solver_status sol) = true ->
  program_of (with_prev_cash prob cash) = program_of prob /\
  run be (with_prev_cash prob cash) = (Ok sol, wd).
Proof.
  intros Hrun Hst. split; [reflexivity|].
  destruct (run_ok_inv be prob sol wd Hrun) as (Hwd & Ha & _ & Hcase).
  destruct Hcase as [(r & wd1 & sigma & Hc & Hopt & Hv & ->) | [Hno _]].
  2:{ rewrite Hno in Hst. discriminate. }
  assert (Hf : formulate (with_prev_cash prob cash) initial_world
               = (Ok (program_of prob), initial_world)).
  { rewrite formulate_spec.
    change (well_dimensioned (with_prev_cash prob cash))
      with (well_dimensioned prob).
    rewrite Hwd. cbn [with_prev_cash cvar_alpha n_scenarios].
    destruct (Qeq_bool _ 0) eqn:E; [|reflexivity].
    apply Qeq_bool_eq in E. contradiction. }
  rewrite (run_formulated be _ _ _ Hf).
  rewrite (run_formulated be prob _ _
             (eq_trans (formulate_spec prob initial_world)
                       ltac:(rewrite Hwd;
                             destruct (Qeq_bool _ 0) eqn:E;
                             [apply Qeq_bool_eq in E; contradiction
                             |reflexivity]))) in Hrun.
  unfold guarded, bind in *. rewrite Hc in *.
  rewrite (extract_spec prob r wd1 Hwd Ha) in Hrun.
  rewrite (extract_spec (with_prev_cash prob cash) r wd1 Hwd Ha).
  rewrite Hopt, Hv in *. exact Hrun.
Qed.

Lemma X3_prev_cash_not_optimized_witness :
  let be := backend_of (Returns "optimal" (Some example_assignment) (Fin 1))
                       not_installed not_installed in
  let sol := extracted example_problem
               (mkSolved "optimal" (Some example_assignment) (Fin 1))
               example_assignment in
  program_of (with_prev_cash example_problem (1#3)) = program_of example_problem
  /\ run be (with_prev_cash example_problem (1#3))
     = (Ok sol, written (mkWorld [CLARABEL] None) sol).
Proof.
  intros be sol.
  apply (X3_prev_cash_not_optimized be example_problem (1#3) sol
           (written (mkWorld [CLARABEL] None) sol)); reflexivity.
Defined.

(** ** The feasible set of the program *)

Lemma hinge_nonneg (x : Q) : 0 <= hinge x.
Proof.
  unfold hinge. destruct (Qle_bool 0 x) eqn:E.
  - now apply Qle_bool_iff.
  - apply Qle_refl.
Qed.

Lemma hinge_ge (x : Q) : x <= hinge x.
Proof.
  unfold hinge. destruct (Qle_bool 0 x) eqn:E.
  - apply Qle_refl.
  - destruct (Qlt_le_dec x 0) as [H|H]; [lra|].
    apply Qle_bool_iff in H. congruence.
Qed.

Lemma hinge_least (x y : Q) : 0 <= y -> x <= y -> hinge x <= y.
Proof. intros H0 Hx. unfold hinge. now destruct (Qle_bool 0 x). Qed.

Lemma Qsum_repeat_zero (n : nat) : Qsum (repeat 0 n) == 0.
Proof. induction n as [|n IH]; cbn; [reflexivity|]. unfold Qsum in IH. lra. Qed.

Lemma nth_le_Qsum (l : list Q) (i : nat) :
  Forall (fun q => 0 <= q) l -> nth i l 0 <= Qsum l.
Proof.
  intros H. revert i. induction H as [|x l Hx Hl IH]; intros [|i]; cbn;
    try apply Qle_refl.
  - pose proof (Qsum_nonneg l Hl) as Hs. unfold Qsum in Hs. lra.
  - specialize (IH i). unfold Qsum in IH. lra.
Qed.

Lemma active_returns_length (prob : Problem) (w : list Q) (w_c : Q) :
  well_dimensioned prob = true ->
  length (active_returns prob w w_c) = Z.to_nat (n_scenarios prob).
Proof. intros Hwd. now apply active_vector_length. Qed.

Lemma nth_active_returns (prob : Problem) (sigma : assignment) (t : nat) :
  well_dimensioned prob = true ->
  (t < Z.to_nat (n_scenarios prob))%nat ->
  nth t (active_returns prob (w_val sigma) (w_c_val sigma)) 0
  = active_at prob sigma t.
Proof. intros Hwd Ht. now apply (nth_active_vector prob sigma Hwd). Qed.

Lemma simplex_feasible (prob : Problem) (w : list Q) (w_c eta : Q) :
  well_dimensioned prob = true ->
  length w = Z.to_nat (n_assets prob) ->
  Forall (fun q => 0 <= q) w ->
  0 <= w_c ->
  Qsum w + w_c == 1 ->
  well_shaped (program_of prob) (tight_slacks prob w w_c eta)
  /\ feasible (program_of prob) (tight_slacks prob w w_c eta).
Proof.
  intros Hwd Hlen Hw Hwc Hsum.
  destruct (well_dimensioned_true prob Hwd)
    as (_ & _ & _ & _ & _ & _ & _ & Hprev & _).
  pose proof (active_returns_length prob w w_c Hwd) as Ha.
  assert (Hshape : well_shaped (program_of prob) (tight_slacks prob w w_c eta)).
  { unfold well_shaped, program_of, has_shape. cbn [variables].
    repeat constructor; cbn; f_equal;
      rewrite ?length_map, ?zip_with_length; lia. }
  split; [exact Hshape|].
  apply (feasible_iff prob _ Hwd Hshape).
  unfold spec_constraints.
  cbn [tight_slacks w_val w_c_val s_lpm_val eta_val u_val z_val v_val].
  repeat split.
  - exact Hsum.
  - rewrite (nth_map_lt _ _ t 0 0) by lia.
    pose proof (nth_active_returns prob (tight_slacks prob w w_c eta) t Hwd H)
      as E.
    cbn [tight_slacks w_val w_c_val s_lpm_val eta_val u_val z_val v_val] in E.
    rewrite E. apply hinge_ge.
  - rewrite (nth_map_lt _ _ t 0 0) by lia.
    pose proof (nth_active_returns prob (tight_slacks prob w w_c eta) t Hwd H)
      as E.
    cbn [tight_slacks w_val w_c_val s_lpm_val eta_val u_val z_val v_val] in E.
    rewrite E. apply hinge_ge.
  - rewrite (nth_zip_with _ _ _ i 0 0 0) by lia. apply Qle_Qabs.
  - rewrite (nth_zip_with _ _ _ i 0 0 0) by lia.
    rewrite <- Qabs_opp. apply Qle_Qabs.
  - apply Qle_Qabs.
  - unfold beta_deviation. rewrite <- Qabs_opp. apply Qle_Qabs.
  - intros i Hi. now apply (Forall_nth_iff _ w _ Hlen).
  - exact Hwc.
  - intros t Ht. rewrite (nth_map_lt _ _ t 0 0) by lia. apply hinge_nonneg.
  - intros t Ht. rewrite (nth_map_lt _ _ t 0 0) by lia. apply hinge_nonneg.
  - intros i Hi. rewrite (nth_zip_with _ _ _ i 0 0 0) by lia.
    apply Qabs_nonneg.
  - apply Qabs_nonneg.
Qed.

(** X4. Every fully invested long-only portfolio is attainable: with the
    slacks at their least values and any [eta] it satisfies every
    constraint of the program. *)
Theorem X4_simplex_is_feasible (prob : Problem) (w : list Q) (w_c eta : Q) :
  well_dimensioned prob = true ->
  length w = Z.to_nat (n_assets prob) ->
  Forall (fun q => 0 <= q) w ->
  0 <= w_c ->
  Qsum w + w_c == 1 ->
  well_shaped (program_of prob) (tight_slacks prob w w_c eta)
  /\ feasible (program_of prob) (tight_slacks prob w w_c eta).
Proof. apply simplex_feasible. Qed.

Lemma X4_simplex_is_feasible_witness :
  well_shaped (program_of example_problem)
              (tight_slacks example_problem [1#4; 1#4] (1#2) 0)
  /\ feasible (program_of example_problem)
              (tight_slacks example_problem [1#4; 1#4] (1#2) 0).
Proof.
  apply X4_simplex_is_feasible.
  - reflexivity.
  - reflexivity.
  - repeat constructor; discriminate.
  - discriminate.
  - reflexivity.
Defined.

(** X5. The program of a problem of consistent dimensions is never
    infeasible: holding everything in cash satisfies it. *)
Theorem X5_all_cash_is_feasible (prob : Problem) :
  well_dimensioned prob = true ->
  well_shaped (program_of prob) (all_cash prob)
  /\ feasible (program_of prob) (all_cash prob)
  /\ w_c_val (all_cash prob) = 1
  /\ Forall (fun q => q = 0) (w_val (all_cash prob)).
Proof.
  intros Hwd.
  destruct (simplex_feasible prob
              (repeat 0 (Z.to_nat (n_assets prob))) 1 0 Hwd) as [Hs Hf].
  - apply repeat_length.
  - apply Forall_forall. intros x Hx. apply repeat_spec in Hx. subst.
    apply Qle_refl.
  - discriminate.
  - rewrite Qsum_repeat_zero. reflexivity.
  - split; [exact Hs|]. split; [exact Hf|]. split; [reflexivity|].
    apply Forall_forall. intros x Hx. now apply repeat_spec in Hx.
Qed.

Lemma X5_all_cash_is_feasible_witness :
  well_shaped (program_of example_problem) (all_cash example_problem)
  /\ feasible (program_of example_problem) (all_cash example_problem)
  /\ w_c_val (all_cash example_problem) = 1
  /\ Forall (fun q => q = 0) (w_val (all_cash example_problem)).
Proof. apply X5_all_cash_is_feasible. reflexivity. Defined.

(** ** Successful solutions and the values of the solver *)

(** A solution of the optimal class is the one extracted from the values
    of the inspected solver call. *)
Lemma successful_values (be : backend) (prob : Problem) sol wd r wd1 sigma :
  run be prob = (Ok sol, wd) ->
  is_optimal (solver_status sol) = true ->
  cascade be (program_of prob) initial_world = (Ok r, wd1) ->
  values r = Some sigma ->
  sol = extracted prob r sigma /\ well_dimensioned prob = true /\
  ~ (1 - cvar_alpha prob) * inject_Z (n_scenarios prob) == 0.
Proof.
  intros Hrun Hopt Hc Hv.
  destruct (run_ok_inv be prob sol wd Hrun) as (Hwd & Ha & _ & Hcase).
  destruct Hcase as [(r' & wd1' & sigma' & Hc' & _ & Hv' & ->) | [Hno _]].
  - rewrite Hc in Hc'. injection Hc' as <- <-.
    rewrite Hv in Hv'. injection Hv' as <-. auto.
  - rewrite Hno in Hopt. discriminate.
Qed.

Section Feasible.
Variable prob : Problem.
Variable sigma : assignment.
Hypothesis Hwd : well_dimensioned prob = true.
Hypothesis Hshape : well_shaped (program_of prob) sigma.
Hypothesis Hfeas : feasible (program_of prob) sigma.

Let N := Z.to_nat (n_assets prob).
Let T := Z.to_nat (n_scenarios prob).

Lemma feasible_spec : spec_constraints prob sigma.
Proof. now apply (feasible_iff prob sigma Hwd Hshape). Qed.

Lemma inv_scenarios_nonneg : 0 <= 1 / inject_Z (n_scenarios prob).
Proof.
  destruct (well_dimensioned_true prob Hwd) as (_ & _ & HT & _).
  apply Qle_shift_div_l; [unfold Qlt; cbn; lia|].
  rewrite Qmult_0_l. discriminate.
Qed.

Lemma weights_in_unit_interval :
  Forall (fun x => 0 <= x /\ x <= 1) (w_val sigma)
  /\ 0 <= w_c_val sigma /\ w_c_val sigma <= 1
  /\ Qsum (w_val sigma) + w_c_val sigma == 1.
Proof.
  destruct (shapes_of_assignment prob sigma Hshape) as (Hw & _).
  destruct feasible_spec as (C1 & _ & _ & _ & _ & Dw & Dwc & _).
  assert (HF : Forall (fun q => 0 <= q) (w_val sigma)).
  { now apply (Forall_nth_iff _ _ _ Hw). }
  pose proof (Qsum_nonneg _ HF) as Hs.
  repeat split; try assumption; try lra.
  apply (Forall_nth_iff _ _ _ Hw). intros i Hi. split.
  - now apply Dw.
  - pose proof (nth_le_Qsum (w_val sigma) i HF). lra.
Qed.

(** Each shortfall slack bounds the shortfall of its scenario. *)
Lemma slack_bounds_shortfall :
  Forall2 Qle
    (map (fun a => hinge (lpm_threshold prob - a))
         (active_returns prob (w_val sigma) (w_c_val sigma)))
    (s_lpm_val sigma).
Proof.
  destruct (shapes_of_assignment prob sigma Hshape) as (_ & Hs & _).
  destruct feasible_spec as (_ & C23 & _ & _ & _ & _ & _ & Ds & _).
  pose proof (active_returns_length prob (w_val sigma) (w_c_val sigma) Hwd)
    as Ha.
  apply (Forall2_nth_iff _ _ _ T); [rewrite length_map; exact Ha | exact Hs |].
  intros t Ht.
  rewrite (nth_map_lt _ _ t 0 0) by (fold T in Ha; lia).
  rewrite (nth_active_returns prob sigma t Hwd Ht).
  apply hinge_least; [now apply Ds | now apply C23].
Qed.

Lemma true_lpm1_le :
  true_lpm1 prob (w_val sigma) (w_c_val sigma)
  <= (1 / inject_Z (n_scenarios prob)) * Qsum (s_lpm_val sigma).
Proof.
  unfold true_lpm1.
  rewrite !(Qmult_comm (1 / inject_Z (n_scenarios prob))).
  apply Qmult_le_compat_r; [|apply inv_scenarios_nonneg].
  apply Qsum_le, slack_bounds_shortfall.
Qed.

Lemma beta_deviation_le : beta_deviation prob (w_val sigma) <= v_val sigma.
Proof.
  destruct feasible_spec as (_ & _ & _ & C6 & C7 & _).
  unfold beta_deviation. apply Qabs_Qle_condition. split; lra.
Qed.

(** The tail slacks sum to at least the total loss beyond [eta]. *)
Lemma tail_slack_sum :
  - Qsum (active_returns prob (w_val sigma) (w_c_val sigma))
  - inject_Z (n_scenarios prob) * eta_val sigma
  <= Qsum (u_val sigma).
Proof.
  destruct (shapes_of_assignment prob sigma Hshape) as (_ & _ & Hu & _).
  destruct (well_dimensioned_true prob Hwd) as (_ & _ & HT & _).
  destruct feasible_spec as (_ & C23 & _).
  pose proof (active_returns_length prob (w_val sigma) (w_c_val sigma) Hwd)
    as Ha.
  assert (Hpt : Forall2 Qle
            (map (fun a => - a - eta_val sigma)
                 (active_returns prob (w_val sigma) (w_c_val sigma)))
            (u_val sigma)).
  { apply (Forall2_nth_iff _ _ _ T); [rewrite length_map; exact Ha|exact Hu|].
    intros t Ht.
    rewrite (nth_map_lt _ _ t 0 0) by (fold T in Ha; lia).
    rewrite (nth_active_returns prob sigma t Hwd Ht). now apply C23. }
  apply Qsum_le in Hpt.
  assert (Hmap : forall l : list Q,
             Qsum (map (fun a => - a - eta_val sigma) l)
             == - Qsum l - inject_Z (Z.of_nat (length l)) * eta_val sigma).
  { induction l as [|x l IH]; [cbn; ring|].
    cbn [map length Qsum fold_right]. fold (Qsum l).
    fold (Qsum (map (fun a => - a - eta_val sigma) l)). rewrite IH.
    rewrite Nat2Z.inj_succ, <- Z.add_1_r, inject_Z_plus. ring. }
  rewrite Hmap, Ha in Hpt. rewrite Z2Nat.id in Hpt by lia. exact Hpt.
Qed.

Lemma cvar_lower_bound :
  0 <= cvar_alpha prob -> cvar_alpha prob < 1 ->
  - mean_active prob (w_val sigma) (w_c_val sigma)
  <= eta_val sigma
     + (1 / ((1 - cvar_alpha prob) * inject_Z (n_scenarios prob)))
       * Qsum (u_val sigma).
Proof.
  intros Ha0 Ha1.
  destruct (shapes_of_assignment prob sigma Hshape) as (_ & _ & Hu & _).
  destruct (well_dimensioned_true prob Hwd) as (_ & _ & HT & _).
  destruct feasible_spec as (_ & _ & _ & _ & _ & _ & _ & _ & Du & _).
  assert (HU : 0 <= Qsum (u_val sigma)).
  { apply Qsum_nonneg. now apply (Forall_nth_iff _ _ _ Hu). }
  pose proof tail_slack_sum as Htail.
  unfold mean_active.
  set (A := Qsum (active_returns prob (w_val sigma) (w_c_val sigma))) in *.
  set (S := Qsum (u_val sigma)) in *.
  set (Tq := inject_Z (n_scenarios prob)) in *.
  assert (HTq : 0 < Tq) by (unfold Tq, Qlt; cbn; lia).
  set (eta := eta_val sigma) in *.
  set (al := cvar_alpha prob) in *.
  clearbody A S Tq eta al.
  assert (Hden : 0 < (1 - al) * Tq) by (apply Qmult_lt_0_compat; lra).
  assert (E : eta + 1 / ((1 - al) * Tq) * S - - (1 / Tq * A)
              == (S - (1 - al) * (- A - Tq * eta)) / ((1 - al) * Tq)).
  { field. split; lra. }
  assert (Hnum : 0 <= S - (1 - al) * (- A - Tq * eta)).
  { destruct (Qlt_le_dec (- A - Tq * eta) 0) as [Hneg|Hpos].
    - assert (0 <= (1 - al) * - (- A - Tq * eta))
        by (apply Qmult_le_0_compat; lra).
      lra.
    - assert (0 <= al * (- A - Tq * eta)) by (apply Qmult_le_0_compat; lra).
      lra. }
  assert (Hq : 0 <= (S - (1 - al) * (- A - Tq * eta)) / ((1 - al) * Tq)).
  { apply Qle_shift_div_l; [exact Hden|]. lra. }
  rewrite <- E in Hq. lra.
Qed.

Lemma tighten_lpm_shaped : well_shaped (program_of prob) (tighten_lpm prob sigma).
Proof.
  destruct (shapes_of_assignment prob sigma Hshape) as (Hw & Hs & Hu & Hz).
  pose proof (active_returns_length prob (w_val sigma) (w_c_val sigma) Hwd)
    as Ha.
  unfold well_shaped, program_of, has_shape. cbn [variables].
  repeat constructor; cbn; f_equal; rewrite ?length_map; assumption.
Qed.

Lemma tighten_lpm_feasible : feasible (program_of prob) (tighten_lpm prob sigma).
Proof.
  pose proof (active_returns_length prob (w_val sigma) (w_c_val sigma) Hwd)
    as Ha.
  apply (feasible_iff prob _ Hwd tighten_lpm_shaped).
  destruct feasible_spec
    as (C1 & C23 & C45 & C6 & C7 & Dw & Dwc & Ds & Du & Dz & Dv).
  unfold spec_constraints. repeat split; auto;
    try (now apply C23); try (now apply C45).
  - cbn [tighten_lpm s_lpm_val].
    rewrite (nth_map_lt _ _ t 0 0) by (fold T in Ha; lia).
    rewrite (nth_active_returns prob sigma t Hwd H).
    change (active_at prob (tighten_lpm prob sigma) t)
      with (active_at prob sigma t).
    apply hinge_ge.
  - intros t Ht. cbn [tighten_lpm s_lpm_val].
    rewrite (nth_map_lt _ _ t 0 0) by (fold T in Ha; lia).
    apply hinge_nonneg.
Qed.

Lemma objective_tighten_lpm :
  objective_at (program_of prob) sigma
  - objective_at (program_of prob) (tighten_lpm prob sigma)
  == lambda_lpm1 prob
     * ((1 / inject_Z (n_scenarios prob)) * Qsum (s_lpm_val sigma)
        - true_lpm1 prob (w_val sigma) (w_c_val sigma)).
Proof.
  destruct (well_dimensioned_true prob Hwd) as (_ & _ & HT & _).
  rewrite !objective_eval by assumption.
  unfold spec_objective, true_lpm1.
  cbn [tighten_lpm s_lpm_val eta_val u_val z_val v_val w_val w_c_val].
  ring.
Qed.

Lemma lpm_gap (eps : Q) :
  optimal_within eps (program_of prob) sigma ->
  lambda_lpm1 prob
  * ((1 / inject_Z (n_scenarios prob)) * Qsum (s_lpm_val sigma)
     - true_lpm1 prob (w_val sigma) (w_c_val sigma)) <= eps.
Proof.
  intros (_ & _ & Hopt).
  specialize (Hopt _ tighten_lpm_shaped tighten_lpm_feasible).
  rewrite <- objective_tighten_lpm. lra.
Qed.

Lemma tighten_beta_shaped :
  well_shaped (program_of prob) (tighten_beta prob sigma).
Proof.
  destruct (shapes_of_assignment prob sigma Hshape) as (Hw & Hs & Hu & Hz).
  unfold well_shaped, program_of, has_shape. cbn [variables].
  repeat constructor; cbn; f_equal; assumption.
Qed.

Lemma tighten_beta_feasible :
  feasible (program_of prob) (tighten_beta prob sigma).
Proof.
  apply (feasible_iff prob _ Hwd tighten_beta_shaped).
  destruct feasible_spec
    as (C1 & C23 & C45 & C6 & C7 & Dw & Dwc & Ds & Du & Dz & Dv).
  unfold spec_constraints. repeat split; auto;
    try (now apply C23); try (now apply C45).
  - cbn [tighten_beta v_val w_val]. apply Qle_Qabs.
  - cbn [tighten_beta v_val w_val]. unfold beta_deviation.
    rewrite <- Qabs_opp. apply Qle_Qabs.
  - cbn [tighten_beta v_val]. apply Qabs_nonneg.
Qed.

Lemma objective_tighten_beta :
  objective_at (program_of prob) sigma
  - objective_at (program_of prob) (tighten_beta prob sigma)
  == lambda_beta prob
     * (stress_weight prob * v_val sigma
        - stress_weight prob * beta_deviation prob (w_val sigma)).
Proof.
  destruct (well_dimensioned_true prob Hwd) as (_ & _ & HT & _).
  rewrite !objective_eval by assumption.
  unfold spec_objective.
  cbn [tighten_beta s_lpm_val eta_val u_val z_val v_val w_val w_c_val].
  ring.
Qed.

Lemma beta_gap (eps : Q) :
  optimal_within eps (program_of prob) sigma ->
  lambda_beta prob
  * (stress_weight prob * v_val sigma
     - stress_weight prob * beta_deviation prob (w_val sigma)) <= eps.
Proof.
  intros (_ & _ & Hopt).
  specialize (Hopt _ tighten_beta_shaped tighten_beta_feasible).
  rewrite <- objective_tighten_beta. lra.
Qed.
End Feasible.

(** X6. A successful solution whose solver values satisfy the program is
    long-only and unlevered: every asset weight and the cash weight lie in
    [0, 1], and they sum to 1. *)
Theorem X6_weights_in_unit_interval (be : backend) (prob : Problem)
    (sol : Solution) (wd wd1 : world) (r : solved) (sigma : assignment) :
  run be prob = (Ok sol, wd) ->
  is_optimal (solver_status sol) = true ->
  cascade be (program_of prob) initial_world = (Ok r, wd1) ->
  values r = Some sigma ->
  well_shaped (program_of prob) sigma ->
  feasible (program_of prob) sigma ->
  Forall (fun x => 0 <= x /\ x <= 1) (asset_weights sol)
  /\ 0 <= cash_weight sol /\ cash_weight sol <= 1
  /\ Qsum (asset_weights sol) + cash_weight sol == 1.
Proof.
  intros Hrun Hopt Hc Hv Hshape Hfeas.
  destruct (successful_values be prob sol wd r wd1 sigma Hrun Hopt Hc Hv)
    as (-> & Hwd & _).
  cbn [extracted asset_weights cash_weight].
  now apply (weights_in_unit_interval prob sigma Hwd Hshape Hfeas).
Qed.

(** X7. The metrics of a successful solution whose solver values satisfy
    the program never understate what they measure: the turnover is at
    least [sum(|asset_weights[i] - prev_weights[i]|)], [lpm1_value] is at
    least the lower partial moment [mean(max(0, tau - a[t]))] of the
    returned portfolio, and, for a nonnegative [stress_weight],
    [beta_penalty] is at least [stress_weight * |betas @ w - beta_target|]. *)
Theorem X7_metrics_never_understate (be : backend) (prob : Problem)
    (sol : Solution) (wd wd1 : world) (r : solved) (sigma : assignment) :
  run be prob = (Ok sol, wd) ->
  is_optimal (solver_status sol) = true ->
  cascade be (program_of prob) initial_world = (Ok r, wd1) ->
  values r = Some sigma ->
  well_shaped (program_of prob) sigma ->
  feasible (program_of prob) sigma ->
  direct_turnover prob (asset_weights sol) <= turnover sol
  /\ true_lpm1 prob (asset_weights sol) (cash_weight sol) <= lpm1_value sol
  /\ (0 <= stress_weight prob ->
      stress_weight prob * beta_deviation prob (asset_weights sol)
      <= beta_penalty sol).
Proof.
  intros Hrun Hopt Hc Hv Hshape Hfeas.
  destruct (successful_values be prob sol wd r wd1 sigma Hrun Hopt Hc Hv)
    as (-> & Hwd & _).
  cbn [extracted asset_weights cash_weight turnover lpm1_value beta_penalty].
  split; [now apply direct_turnover_le|].
  split; [now apply true_lpm1_le|].
  intros Hs.
  rewrite !(Qmult_comm (stress_weight prob)).
  apply Qmult_le_compat_r; [|exact Hs].
  now apply beta_deviation_le.
Qed.

(** X8. For [0 <= cvar_alpha < 1], the [cvar_value] of a successful
    solution whose solver values satisfy the program is at least the mean
    loss [-mean(a)] of the returned portfolio against the benchmark. *)
Theorem X8_cvar_at_least_mean_loss (be : backend) (prob : Problem)
    (sol : Solution) (wd wd1 : world) (r : solved) (sigma : assignment) :
  run be prob = (Ok sol, wd) ->
  is_optimal (solver_status sol) = true ->
  cascade be (program_of prob) initial_world = (Ok r, wd1) ->
  values r = Some sigma ->
  well_shaped (program_of prob) sigma ->
  feasible (program_of prob) sigma ->
  0 <= cvar_alpha prob -> cvar_alpha prob < 1 ->
  - mean_active prob (asset_weights sol) (cash_weight sol) <= cvar_value sol.
Proof.
  intros Hrun Hopt Hc Hv Hshape Hfeas Ha0 Ha1.
  destruct (successful_values be prob sol wd r wd1 sigma Hrun Hopt Hc Hv)
    as (-> & Hwd & _).
  cbn [extracted asset_weights cash_weight cvar_value].
  now apply cvar_lower_bound.
Qed.

(** X9. Let the solver values be optimal for the program to within [eps]
    in objective.  Then [lambda_lpm1] times the excess of [lpm1_value] over
    the lower partial moment of the returned portfolio is at most [eps]:
    with [lambda_lpm1 > 0] and an exact optimum the two are equal. *)
Theorem X9_lpm1_consistency (eps : Q) (be : backend) (prob : Problem)
    (sol : Solution) (wd wd1 : world) (r : solved) (sigma : assignment) :
  run be prob = (Ok sol, wd) ->
  is_optimal (solver_status sol) = true ->
  cascade be (program_of prob) initial_world = (Ok r, wd1) ->
  values r = Some sigma ->
  optimal_within eps (program_of prob) sigma ->
  lambda_lpm1 prob
  * (lpm1_value sol - true_lpm1 prob (asset_weights sol) (cash_weight sol))
  <= eps
  /\ (0 < lambda_lpm1 prob -> eps == 0 ->
      lpm1_value sol == true_lpm1 prob (asset_weights sol) (cash_weight sol)).
Proof.
  intros Hrun Hopt Hc Hv Hbest.
  destruct (successful_values be prob sol wd r wd1 sigma Hrun Hopt Hc Hv)
    as (-> & Hwd & _).
  cbn [extracted asset_weights cash_weight lpm1_value].
  destruct Hbest as (Hshape & Hfeas & Hmin).
  pose proof (lpm_gap prob sigma Hwd Hshape Hfeas eps
                (conj Hshape (conj Hfeas Hmin))) as Hgap.
  pose proof (true_lpm1_le prob sigma Hwd Hshape Hfeas) as Hle.
  split; [exact Hgap|].
  intros Hl Heps. rewrite Heps in Hgap.
  apply Qle_antisym; [|exact Hle].
  destruct (Qlt_le_dec (true_lpm1 prob (w_val sigma) (w_c_val sigma))
              (1 / inject_Z (n_scenarios prob) * Qsum (s_lpm_val sigma)))
    as [Hlt|]; [|assumption].
  exfalso.
  assert (0 < lambda_lpm1 prob
              * (1 / inject_Z (n_scenarios prob) * Qsum (s_lpm_val sigma)
                 - true_lpm1 prob (w_val sigma) (w_c_val sigma)))
    by (apply Qmult_lt_0_compat; lra).
  lra.
Qed.

(** X10. Let the solver values be optimal for the program to within [eps]
    in objective.  Then [lambda_beta] times the excess of [beta_penalty]
    over [stress_weight * |betas @ w - beta_target|] is at most [eps]:
    with [lambda_beta > 0], [stress_weight >= 0] and an exact optimum the
    two are equal. *)
Theorem X10_beta_penalty_consistency (eps : Q) (be : backend) (prob : Problem)
    (sol : Solution) (wd wd1 : world) (r : solved) (sigma : assignment) :
  run be prob = (Ok sol, wd) ->
  is_optimal (solver_status sol) = true ->
  cascade be (program_of prob) initial_world = (Ok r, wd1) ->
  values r = Some sigma ->
  optimal_within eps (program_of prob) sigma ->
  lambda_beta prob
  * (beta_penalty sol
     - stress_weight prob * beta_deviation prob (asset_weights sol)) <= eps
  /\ (0 < lambda_beta prob -> 0 <= stress_weight prob -> eps == 0 ->
      beta_penalty sol
      == stress_weight prob * beta_deviation prob (asset_weights sol)).
Proof.
  intros Hrun Hopt Hc Hv Hbest.
  destruct (successful_values be prob sol wd r wd1 sigma Hrun Hopt Hc Hv)
    as (-> & Hwd & _).
  cbn [extracted asset_weights cash_weight beta_penalty].
  destruct Hbest as (Hshape & Hfeas & Hmin).
  pose proof (beta_gap prob sigma Hwd Hshape Hfeas eps
                (conj Hshape (conj Hfeas Hmin))) as Hgap.
  pose proof (beta_deviation_le prob sigma Hwd Hshape Hfeas) as Hle.
  split; [exact Hgap|].
  intros Hl Hs Heps. rewrite Heps in Hgap.
  assert (Hle' : stress_weight prob * beta_deviation prob (w_val sigma)
                 <= stress_weight prob * v_val sigma).
  { rewrite !(Qmult_comm (stress_weight prob)).
    now apply Qmult_le_compat_r. }
  apply Qle_antisym; [|exact Hle'].
  destruct (Qlt_le_dec (stress_weight prob * beta_deviation prob (w_val sigma))
              (stress_weight prob * v_val sigma)) as [Hlt|]; [|assumption].
  exfalso.
  assert (0 < lambda_beta prob
              * (stress_weight prob * v_val sigma
                 - stress_weight prob * beta_deviation prob (w_val sigma)))
    by (apply Qmult_lt_0_compat; lra).
  lra.
Qed.

Lemma keep_assignment_preferred :
  optimal_within 0 (program_of (tiny_problem 0 0 1 0)) keep_assignment.
Proof.
  split; [repeat constructor|]. split; [concrete_feasible|].
  intros sigma' _ [Hdom _].
  rewrite !objective_eval by reflexivity.
  assert (Hv : 0 <= v_val sigma').
  { unfold program_of in Hdom. cbn [variables] in Hdom.
    repeat (apply Forall_cons_iff in Hdom; destruct Hdom as [? Hdom]).
    match goal with
    | H : in_domain sigma' var_v |- _ => cbn in H; now inversion H
    end. }
  assert (E0 : spec_objective (tiny_problem 0 0 1 0) keep_assignment == 0)
    by reflexivity.
  assert (E1 : spec_objective (tiny_problem 0 0 1 0) sigma' == v_val sigma').
  { unfold spec_objective.
    cbn [tiny_problem lambda_lpm1 lambda_cvar lambda_beta kappa stress_weight
         n_scenarios cvar_alpha].
    ring. }
  rewrite E0, E1. lra.
Qed.

Lemma keep_assignment_feasible :
  well_shaped (program_of (tiny_problem 0 0 0 1)) keep_assignment
  /\ feasible (program_of (tiny_problem 0 0 0 1)) keep_assignment.
Proof.
  destruct keep_assignment_optimal as (Hs & Hf & _). now split.
Qed.

Lemma X6_weights_in_unit_interval_witness :
  let r := mkSolved "optimal" (Some keep_assignment) (Fin 0) in
  let sol := extracted (tiny_problem 0 0 0 1) r keep_assignment in
  Forall (fun x => 0 <= x /\ x <= 1) (asset_weights sol)
  /\ 0 <= cash_weight sol /\ cash_weight sol <= 1
  /\ Qsum (asset_weights sol) + cash_weight sol == 1.
Proof.
  intros r sol.
  apply (X6_weights_in_unit_interval
           (backend_of (Returns "optimal" (Some keep_assignment) (Fin 0))
                       not_installed not_installed)
           (tiny_problem 0 0 0 1) sol
           (written (mkWorld [CLARABEL] None) sol) (mkWorld [CLARABEL] None)
           r keep_assignment);
    try reflexivity; apply keep_assignment_feasible.
Defined.

Lemma X7_metrics_never_understate_witness :
  let r := mkSolved "optimal" (Some keep_assignment) (Fin 0) in
  let prob := tiny_problem 0 0 0 1 in
  let sol := extracted prob r keep_assignment in
  direct_turnover prob (asset_weights sol) <= turnover sol
  /\ true_lpm1 prob (asset_weights sol) (cash_weight sol) <= lpm1_value sol
  /\ (0 <= stress_weight prob ->
      stress_weight prob * beta_deviation prob (asset_weights sol)
      <= beta_penalty sol).
Proof.
  intros r prob sol.
  apply (X7_metrics_never_understate
           (backend_of (Returns "optimal" (Some keep_assignment) (Fin 0))
                       not_installed not_installed)
           prob sol
           (written (mkWorld [CLARABEL] None) sol) (mkWorld [CLARABEL] None)
           r keep_assignment);
    try reflexivity; apply keep_assignment_feasible.
Defined.

Lemma X8_cvar_at_least_mean_loss_witness :
  let r := mkSolved "optimal" (Some keep_assignment) (Fin 0) in
  let prob := tiny_problem 0 0 0 1 in
  let sol := extracted prob r keep_assignment in
  - mean_active prob (asset_weights sol) (cash_weight sol) <= cvar_value sol.
Proof.
  intros r prob sol.
  apply (X8_cvar_at_least_mean_loss
           (backend_of (Returns "optimal" (Some keep_assignment) (Fin 0))
                       not_installed not_installed)
           prob sol
           (written (mkWorld [CLARABEL] None) sol) (mkWorld [CLARABEL] None)
           r keep_assignment);
    try reflexivity; try apply keep_assignment_feasible; discriminate.
Defined.

Lemma X9_lpm1_consistency_witness :
  let r := mkSolved "optimal" (Some slack_assignment) (Fin 0) in
  let prob := tiny_problem 1 0 0 0 in
  let sol := extracted prob r slack_assignment in
  lambda_lpm1 prob
  * (lpm1_value sol - true_lpm1 prob (asset_weights sol) (cash_weight sol))
  <= 0
  /\ (0 < lambda_lpm1 prob -> 0 == 0 ->
      lpm1_value sol == true_lpm1 prob (asset_weights sol) (cash_weight sol)).
Proof.
  intros r prob sol.
  apply (X9_lpm1_consistency 0
           (backend_of (Returns "optimal" (Some slack_assignment) (Fin 0))
                       not_installed not_installed)
           prob sol
           (written (mkWorld [CLARABEL] None) sol) (mkWorld [CLARABEL] None)
           r slack_assignment);
    try reflexivity; exact slack_assignment_optimal.
Defined.

Lemma X10_beta_penalty_consistency_witness :
  let r := mkSolved "optimal" (Some keep_assignment) (Fin 0) in
  let prob := tiny_problem 0 0 1 0 in
  let sol := extracted prob r keep_assignment in
  lambda_beta prob
  * (beta_penalty sol
     - stress_weight prob * beta_deviation prob (asset_weights sol)) <= 0
  /\ (0 < lambda_beta prob -> 0 <= stress_weight prob -> 0 == 0 ->
      beta_penalty sol
      == stress_weight prob * beta_deviation prob (asset_weights sol)).
Proof.
  intros r prob sol.
  apply (X10_beta_penalty_consistency 0
           (backend_of (Returns "optimal" (Some keep_assignment) (Fin 0))
                       not_installed not_installed)
           prob sol
           (written (mkWorld [CLARABEL] None) sol) (mkWorld [CLARABEL] None)
           r keep_assignment);
    try reflexivity; exact keep_assignment_preferred.
Defined.

(** ** Boundedness of the program *)

Lemma Qsum_abs_nonneg (l : list Q) : 0 <= Qsum (map Qabs l).
Proof.
  apply Qsum_nonneg, Forall_forall. intros x Hx.
  apply in_map_iff in Hx. destruct Hx as (y & <- & _). apply Qabs_nonneg.
Qed.

Lemma scale_le_abs (r x : Q) : 0 <= x -> x <= 1 -> r * x <= Qabs r.
Proof.
  intros H0 H1. pose proof (Qle_Qabs r) as Hr.
  pose proof (Qabs_nonneg r) as Ha.
  assert (r * x <= Qabs r * x) by (apply Qmult_le_compat_r; assumption).
  assert (0 <= Qabs r * (1 - x)) by (apply Qmult_le_0_compat; lra).
  lra.
Qed.

Lemma dot_le_abs (row w : list Q) :
  Forall (fun x => 0 <= x /\ x <= 1) w ->
  dot row w <= Qsum (map Qabs row).
Proof.
  revert w. induction row as [|r row IH]; intros w Hw.
  - apply Qle_refl.
  - destruct w as [|x w].
    + pose proof (Qsum_abs_nonneg (r :: row)) as H. exact H.
    + inversion Hw as [|? ? [Hx0 Hx1] Hw']; subst.
      specialize (IH w Hw'). unfold dot in *. cbn.
      fold (Qsum (zip_with Qmult row w)). fold (Qsum (map Qabs row)).
      pose proof (scale_le_abs r x Hx0 Hx1). lra.
Qed.

Lemma return_bound_length (prob : Problem) :
  well_dimensioned prob = true ->
  length (return_bound prob) = Z.to_nat (n_scenarios prob).
Proof.
  intros Hwd.
  destruct (well_dimensioned_true prob Hwd)
    as (_ & _ & _ & _ & HR & Hrc & Hb & _).
  unfold return_bound.
  rewrite !zip_with_length; rewrite ?length_map; try lia.
  rewrite zip_with_length; rewrite ?length_map; lia.
Qed.

Lemma nth_return_bound (prob : Problem) (t : nat) :
  well_dimensioned prob = true ->
  (t < Z.to_nat (n_scenarios prob))%nat ->
  nth t (return_bound prob) 0
  = Qsum (map Qabs (nth t (asset_scenarios prob) []))
    + Qabs (nth t (cash_scenarios prob) 0)
    - nth t (benchmark_scenarios prob) 0.
Proof.
  intros Hwd Ht.
  destruct (well_dimensioned_true prob Hwd)
    as (_ & _ & _ & _ & HR & Hrc & Hb & _).
  unfold return_bound.
  rewrite (nth_zip_with Qminus _ _ t 0 0 0).
  2:{ rewrite zip_with_length; rewrite ?length_map; lia. }
  2:{ lia. }
  rewrite (nth_zip_with Qplus _ _ t 0 0 0) by (rewrite length_map; lia).
  rewrite (nth_map_lt _ (asset_scenarios prob) t 0 []) by lia.
  rewrite (nth_map_lt _ (cash_scenarios prob) t 0 0) by lia.
  reflexivity.
Qed.

Section Bounded.
Variable prob : Problem.
Variable sigma : assignment.
Hypothesis Hwd : well_dimensioned prob = true.
Hypothesis Hshape : well_shaped (program_of prob) sigma.
Hypothesis Hfeas : feasible (program_of prob) sigma.

Lemma active_le_bound :
  Qsum (active_returns prob (w_val sigma) (w_c_val sigma))
  <= Qsum (return_bound prob).
Proof.
  destruct (weights_in_unit_interval prob sigma Hwd Hshape Hfeas)
    as (Hw & Hc0 & Hc1 & _).
  apply Qsum_le.
  apply (Forall2_nth_iff _ _ _ (Z.to_nat (n_scenarios prob))).
  - now apply active_returns_length.
  - now apply return_bound_length.
  - intros t Ht.
    rewrite (nth_active_returns prob sigma t Hwd Ht).
    rewrite (nth_return_bound prob t Hwd Ht).
    unfold active_at.
    pose proof (dot_le_abs (nth t (asset_scenarios prob) []) (w_val sigma) Hw).
    pose proof (scale_le_abs (nth t (cash_scenarios prob) 0) (w_c_val sigma)
                  Hc0 Hc1).
    lra.
Qed.

Lemma objective_above_floor :
  0 <= lambda_lpm1 prob -> 0 <= lambda_cvar prob -> 0 <= lambda_beta prob ->
  0 <= kappa prob -> 0 <= stress_weight prob ->
  0 <= cvar_alpha prob -> cvar_alpha prob < 1 ->
  objective_floor prob <= objective_at (program_of prob) sigma.
Proof.
  intros Hl1 Hlc Hlb Hk Hs Ha0 Ha1.
  destruct (well_dimensioned_true prob Hwd) as (_ & _ & HT & _).
  destruct (shapes_of_assignment prob sigma Hshape) as (Hw & Hsl & Hu & Hz).
  destruct (feasible_spec prob sigma Hwd Hshape Hfeas)
    as (_ & _ & _ & _ & _ & _ & _ & Ds & _ & Dz & Dv).
  rewrite objective_eval by assumption.
  pose proof (cvar_lower_bound prob sigma Hwd Hshape Hfeas Ha0 Ha1) as Hcvar.
  pose proof active_le_bound as Hab.
  pose proof (inv_scenarios_nonneg prob Hwd) as HiT.
  assert (HS : 0 <= Qsum (s_lpm_val sigma)).
  { apply Qsum_nonneg. now apply (Forall_nth_iff _ _ _ Hsl). }
  assert (HZ : 0 <= Qsum (z_val sigma)).
  { apply Qsum_nonneg. now apply (Forall_nth_iff _ _ _ Hz). }
  unfold objective_floor, spec_objective, mean_active in *.
  set (cv := eta_val sigma
             + 1 / ((1 - cvar_alpha prob) * inject_Z (n_scenarios prob))
               * Qsum (u_val sigma)) in *.
  set (iT := 1 / inject_Z (n_scenarios prob)) in *.
  set (A := Qsum (active_returns prob (w_val sigma) (w_c_val sigma))) in *.
  set (B := Qsum (return_bound prob)) in *.
  assert (H1 : 0 <= lambda_lpm1 prob * iT * Qsum (s_lpm_val sigma)).
  { apply Qmult_le_0_compat; [apply Qmult_le_0_compat|]; assumption. }
  assert (H2 : 0 <= kappa prob * Qsum (z_val sigma))
    by (apply Qmult_le_0_compat; assumption).
  assert (H3 : 0 <= lambda_beta prob * stress_weight prob * v_val sigma).
  { apply Qmult_le_0_compat; [apply Qmult_le_0_compat|]; assumption. }
  assert (H4 : iT * A <= iT * B).
  { rewrite !(Qmult_comm iT). now apply Qmult_le_compat_r. }
  assert (H5 : 0 <= lambda_cvar prob * (cv + iT * B)).
  { apply Qmult_le_0_compat; [assumption|]. lra. }
  clearbody cv iT A B. lra.
Qed.
End Bounded.

(** X11. With nonnegative [lambda_lpm1], [lambda_cvar], [lambda_beta],
    [kappa] and [stress_weight] and [0 <= cvar_alpha < 1], the objective of
    the program is bounded below on its feasible set, by a value computed
    from the scenarios alone: the program is never unbounded. *)
Theorem X11_objective_bounded_below (prob : Problem) (sigma : assignment) :
  well_dimensioned prob = true ->
  0 <= lambda_lpm1 prob -> 0 <= lambda_cvar prob -> 0 <= lambda_beta prob ->
  0 <= kappa prob -> 0 <= stress_weight prob ->
  0 <= cvar_alpha prob -> cvar_alpha prob < 1 ->
  well_shaped (program_of prob) sigma ->
  feasible (program_of prob) sigma ->
  objective_floor prob <= objective_at (program_of prob) sigma.
Proof.
  intros Hwd Hl1 Hlc Hlb Hk Hs Ha0 Ha1 Hshape Hfeas.
  now apply objective_above_floor.
Qed.

Lemma X11_objective_bounded_below_witness :
  objective_floor example_problem
  <= objective_at (program_of example_problem) (all_cash example_problem).
Proof.
  apply X11_objective_bounded_below; try discriminate; try reflexivity.
  - apply (simplex_feasible example_problem); try reflexivity;
      try discriminate.
    repeat constructor; discriminate.
  - apply (simplex_feasible example_problem); try reflexivity;
      try discriminate.
    repeat constructor; discriminate.
Defined.

Lemma Qsum_map_plus (m : Q) (l : list Q) :
  Qsum (map (fun x => x + m) l)
  == Qsum l + inject_Z (Z.of_nat (length l)) * m.
Proof.
  induction l as [|x l IH]; [cbn; ring|].
  cbn [map length Qsum fold_right]. fold (Qsum l).
  fold (Qsum (map (fun x => x + m) l)). rewrite IH.
  rewrite Nat2Z.inj_succ, <- Z.add_1_r, inject_Z_plus. ring.
Qed.

Section Inflate.
Variable prob : Problem.
Variable sigma : assignment.
Variable m : Q.
Hypothesis Hwd : well_dimensioned prob = true.
Hypothesis Hshape : well_shaped (program_of prob) sigma.
Hypothesis Hfeas : feasible (program_of prob) sigma.
Hypothesis Hm : 0 <= m.

Lemma inflate_shaped : well_shaped (program_of prob) (inflate_turnover m sigma).
Proof.
  destruct (shapes_of_assignment prob sigma Hshape) as (Hw & Hs & Hu & Hz).
  unfold well_shaped, program_of, has_shape. cbn [variables].
  repeat constructor; cbn; f_equal; rewrite ?length_map; assumption.
Qed.

Lemma inflate_feasible : feasible (program_of prob) (inflate_turnover m sigma).
Proof.
  destruct (shapes_of_assignment prob sigma Hshape) as (Hw & Hs & Hu & Hz).
  apply (feasible_iff prob _ Hwd inflate_shaped).
  destruct (feasible_spec prob sigma Hwd Hshape Hfeas)
    as (C1 & C23 & C45 & C6 & C7 & Dw & Dwc & Ds & Du & Dz & Dv).
  unfold spec_constraints. repeat split; auto; try (now apply C23).
  - cbn [inflate_turnover z_val w_val].
    rewrite (nth_map_lt _ _ i 0 0) by lia.
    destruct (C45 i H). lra.
  - cbn [inflate_turnover z_val w_val].
    rewrite (nth_map_lt _ _ i 0 0) by lia.
    destruct (C45 i H). lra.
  - intros i Hi. cbn [inflate_turnover z_val].
    rewrite (nth_map_lt _ _ i 0 0) by lia.
    specialize (Dz i Hi). lra.
Qed.

Lemma objective_inflate :
  objective_at (program_of prob) (inflate_turnover m sigma)
  == objective_at (program_of prob) sigma
     + kappa prob * (inject_Z (n_assets prob) * m).
Proof.
  destruct (well_dimensioned_true prob Hwd) as (_ & HN & HT & _).
  destruct (shapes_of_assignment prob sigma Hshape) as (_ & _ & _ & Hz).
  rewrite !objective_eval by assumption.
  unfold spec_objective.
  cbn [inflate_turnover s_lpm_val eta_val u_val z_val v_val w_val w_c_val].
  rewrite Qsum_map_plus, Hz, Z2Nat.id by lia. ring.
Qed.
End Inflate.

(** X12. A negative [kappa], which the function accepts, makes the program
    unbounded: below every value there is a feasible assignment. *)
Theorem X12_negative_kappa_unbounded (prob : Problem) (bound : Q) :
  well_dimensioned prob = true ->
  kappa prob < 0 ->
  exists sigma,
    well_shaped (program_of prob) sigma /\
    feasible (program_of prob) sigma /\
    objective_at (program_of prob) sigma < bound.
Proof.
  intros Hwd Hk.
  destruct (well_dimensioned_true prob Hwd) as (_ & HN & _).
  assert (Hbase : well_shaped (program_of prob) (all_cash prob)
                  /\ feasible (program_of prob) (all_cash prob)).
  { apply simplex_feasible; try assumption.
    - apply repeat_length.
    - apply Forall_forall. intros x Hx. apply repeat_spec in Hx. subst.
      apply Qle_refl.
    - discriminate.
    - rewrite Qsum_repeat_zero. reflexivity. }
  destruct Hbase as [Hs Hf].
  set (c := - kappa prob * inject_Z (n_assets prob)).
  assert (Hc : 0 < c).
  { apply Qmult_lt_0_compat; [lra|]. unfold Qlt. cbn. lia. }
  set (gap := objective_at (program_of prob) (all_cash prob) - bound).
  set (m := hinge (gap / c) + 1).
  assert (Hm : 0 <= m) by (pose proof (hinge_nonneg (gap / c)); unfold m; lra).
  exists (inflate_turnover m (all_cash prob)).
  split; [now apply inflate_shaped|].
  split; [now apply inflate_feasible|].
  rewrite (objective_inflate prob (all_cash prob) m Hwd Hs).
  assert (Hgt : gap < m * c).
  { assert (E : gap == (gap / c) * c) by (field; lra).
    rewrite E. apply Qmult_lt_compat_r; [exact Hc|].
    pose proof (hinge_ge (gap / c)). unfold m. lra. }
  unfold c, gap in Hgt. lra.
Qed.

Lemma X12_negative_kappa_unbounded_witness :
  exists sigma,
    well_shaped (program_of (tiny_problem 0 0 0 (-1))) sigma /\
    feasible (program_of (tiny_problem 0 0 0 (-1))) sigma /\
    objective_at (program_of (tiny_problem 0 0 0 (-1))) sigma < -1000.
Proof.
  apply X12_negative_kappa_unbounded; reflexivity.
Defined.

(** ** The problem file and the script *)

Lemma load_first_missing (d : document) (k : string) :
  first_missing d = Some k ->
  rows_rectangular d = true ->
  load_problem d = inl (KeyError k).
Proof.
  destruct d as [f1 f2 f3 f4 f5 f6 f7 f8 f9 f10 f11 f12 f13 f14 f15 f16].
  unfold first_missing, keys_read, rows_rectangular, load_problem.
  cbn [doc_n_assets doc_n_scenarios doc_asset_scenarios
       doc_benchmark_scenarios doc_cash_scenarios doc_prev_weights
       doc_prev_cash doc_asset_betas doc_stress_weight doc_lambda_lpm1
       doc_lambda_cvar doc_lambda_beta doc_kappa doc_lpm_threshold
       doc_cvar_alpha doc_beta_target].
  intros Hk Hr.
  destruct f1; cbn in Hk |- *; [|now injection Hk as <-].
  destruct f2; cbn in Hk |- *; [|now injection Hk as <-].
  destruct f3; cbn in Hk |- *; [|now injection Hk as <-].
  rewrite Hr. cbn.
  destruct f4; cbn in Hk |- *; [|now injection Hk as <-].
  destruct f5; cbn in Hk |- *; [|now injection Hk as <-].
  destruct f6; cbn in Hk |- *; [|now injection Hk as <-].
  destruct f7; cbn in Hk |- *; [|now injection Hk as <-].
  destruct f8; cbn in Hk |- *; [|now injection Hk as <-].
  destruct f9; cbn in Hk |- *; [|now injection Hk as <-].
  destruct f10; cbn in Hk |- *; [|now injection Hk as <-].
  destruct f11; cbn in Hk |- *; [|now injection Hk as <-].
  destruct f12; cbn in Hk |- *; [|now injection Hk as <-].
  destruct f13; cbn in Hk |- *; [|now injection Hk as <-].
  destruct f14; cbn in Hk |- *; [|now injection Hk as <-].
  destruct f15; cbn in Hk |- *; [|now injection Hk as <-].
  destruct f16; cbn in Hk |- *; [|now injection Hk as <-].
  discriminate.
Qed.

(** X13. When the problem file lacks a key that the function reads, the
    call ends with the KeyError of the first such key in the order of
    reading, unless rows of different lengths in [asset_scenarios] stop it
    before; no solver is invoked and no solution file is written. *)
Theorem X13_missing_key (be : backend) (fs : filesystem)
    (writable : string -> bool) (problem_path solution_path : string)
    (d : document) (k : string) :
  fs problem_path = Some d ->
  first_missing d = Some k ->
  rows_rectangular d = true ->
  solve_portfolio_lp_files be fs writable problem_path solution_path
  = mkEffects (Some (KeyError k)) [] [].
Proof.
  intros Hfs Hk Hr. unfold solve_portfolio_lp_files.
  now rewrite Hfs, (load_first_missing d k Hk Hr).
Qed.


Lemma X13_missing_key_witness :
  let d := mkDocument (Some 2%Z) (Some 3%Z)
             (Some [[1#100; -2#100]; [3#100; 1#100]; [-1#100; 4#100]])
             (Some [0; 2#100; 1#100]) (Some [0; 0; 0]) (Some [1#2; 1#2])
             (Some 0) (Some [1; 1#2]) (Some 1) (Some 1) (Some (1#2)) (Some 1)
             None (Some 0) None (Some (6#10)) in
  solve_portfolio_lp_files
    (backend_of not_installed not_installed not_installed)
    (fun _ => Some d) (fun _ => true) "problem.json" "solution.json"
  = mkEffects (Some (KeyError "kappa")) [] [].
Proof.
  intro d.
  apply (X13_missing_key _ (fun _ => Some d) (fun _ => true)
           "problem.json" "solution.json" d);
    reflexivity.
Defined.


